(** * articy-node: flow iterator and script sandbox

    A shallow embedding of [src/iterator.ts] and [src/script.ts].

    JavaScript objects that the code mutates in place are modelled with
    explicit state passing:
    - variable stores live in a heap ([stores]); a [StoreRef] is the identity
      of one store object, so that aliasing between a committed state and a
      speculative iterator is visible;
    - the module-level variables of [script.ts] are the fields of
      [Script.Globals];
    - the flow-state object handed to [collectBranches] is returned together
      with the result, as the callee left it.

    [collectBranches] may loop forever on a cyclic graph; it is defined by
    recursion on a fuel argument and returns [None] when the fuel runs out. *)

From Stdlib Require Import ZArith Lia.
From stdpp Require Import base option list gmap strings.

Local Open Scope Z_scope.

(** ** json.ts / variables.ts: the data the two modules share *)

(** [type Id = string] *)
Definition Id : Type := string.

(** [Variable]: a primitive scalar (boolean, number or string). Numbers are
    the integers the flow uses for counters. *)
Inductive VariableValue : Type :=
| VBool (b : bool)
| VNumber (n : Z)
| VString (s : string).

(** [VariableStore]: variable name to value. *)
Abbreviation VariableStore := (gmap string VariableValue).

(** The identity of one [VariableStore] object. *)
Definition StoreRef : Type := nat.

(** JavaScript truthiness of a property that may be absent. *)
Definition truthy (v : option VariableValue) : bool :=
  match v with
  | Some (VBool b) => b
  | Some (VNumber n) => negb (n =? 0)
  | Some (VString s) => negb (String.eqb s "")
  | None => false
  end.

(** [!id] is false only for a non-empty string: [null] and [""] are falsy. *)
Definition present (id : option Id) : option Id :=
  match id with
  | Some s => if String.eqb s "" then None else Some s
  | None => None
  end.

(** [FeatureProps]: the data of one feature, a bag of properties. *)
Abbreviation FeatureProps := (gmap string VariableValue).

(** [TemplateProps]: feature name to feature data. The entries are kept in
    the order [Object.keys] enumerates them; names are unique. *)
Definition TemplateProps : Type := list (string * FeatureProps).

(** [template[name]] *)
Fixpoint feature (template : TemplateProps) (name : string) : option FeatureProps :=
  match template with
  | [] => None
  | (key, data) :: rest => if String.eqb key name then Some data else feature rest name
  end.

(** Redux [AnyAction] *)
Record AnyAction : Type := mkAction {
  action_type : string;
  payload : option VariableValue
}.

(** ** flowTypes.ts: the node capability the iterator consumes

    [numBranches] is a query on the variables. [next] is handed the store
    object and may change it (an instruction script runs when the walk steps
    over its node), so it returns the new content of that store with the
    node it leads to. [execute] likewise changes the store it is given. *)
Class BaseFlowNode (Node : Type) : Type := {
  node_Id : Node -> Id;
  node_is : Node -> string -> bool;
  template : Node -> option TemplateProps;
  numBranches : Node -> VariableStore -> option Id -> bool -> Z;
  next : Node -> VariableStore -> Z -> option Id -> bool -> VariableStore * option Node;
  needsShadow : Node -> bool;
  execute : Node -> VariableStore -> VariableStore
}.

(** database.ts: [getObject(id, BaseFlowNode)] and [newVariableStore()] *)
Record Database (Node : Type) : Type := mkDatabase {
  getObject : Id -> option Node;
  newVariableStore : VariableStore
}.
Arguments getObject {Node} _ _.
Arguments newVariableStore {Node} _.

(** ** script.ts *)
Module Script.

(** [ScriptGenerator = Generator<AnyAction, Variable | void, undefined>]:
    a generator that yields finitely many actions and then returns. *)
Inductive ScriptGenerator : Type :=
| GReturn (value : option VariableValue)
| GYield (value : AnyAction) (rest : ScriptGenerator).

(** One [generator.next()]: the iterator result and the generator afterwards.
    A finished generator answers [{done: true, value: undefined}]. *)
Inductive IteratorResult : Type :=
| Done (value : option VariableValue)
| Yielded (value : AnyAction).

Definition gen_next (generator : ScriptGenerator) : IteratorResult * ScriptGenerator :=
  match generator with
  | GReturn v => (Done v, GReturn None)
  | GYield a rest => (Yielded a, rest)
  end.

(** The actions a generator still has to yield, and its final return value. *)
Fixpoint gen_actions (generator : ScriptGenerator) : list AnyAction :=
  match generator with
  | GReturn _ => []
  | GYield a rest => a :: gen_actions rest
  end.

Fixpoint gen_return (generator : ScriptGenerator) : option VariableValue :=
  match generator with
  | GReturn v => v
  | GYield _ rest => gen_return rest
  end.

(** [Variable | void | ScriptGenerator]; only the generator is an object. *)
Inductive ScriptReturn : Type :=
| RValue (v : VariableValue)
| RVoid
| RGenerator (generator : ScriptGenerator).

(** [ScriptMethodDef]: a script method the exported database uses. *)
Record ScriptMethodDef : Type := mkScriptMethodDef {
  Name : string;
  ReturnType : string
}.

Section Script.
Context {Node State ApplicationState DB : Type}.
Context `{BaseFlowNode Node}.
(** [node.db] *)
Context (node_db : Node -> DB).

Definition ScriptFunction : Type :=
  option ApplicationState -> DB -> list VariableValue -> ScriptReturn.

Definition FeatureExecutionHandler : Type :=
  DB -> FeatureProps -> Node -> State -> ScriptReturn.

(** The module-level variables. [invoked] is a ghost field: it records
    every call of a feature handler, as the feature name and the position
    of the handler in that feature's list. [console] is the output of
    [console.log] and [console.error]. *)
Record Globals : Type := mkGlobals {
  registeredFunctions : gmap string ScriptFunction;
  state : option ApplicationState;
  actionQueue : option (list AnyAction);
  featureHandlers : gmap string (list FeatureExecutionHandler);
  console : list string;
  invoked : list (string * nat)
}.

(** The globals when the module has just been loaded. *)
Definition initial : Globals :=
  {| registeredFunctions := ∅; state := None; actionQueue := None;
     featureHandlers := ∅; console := []; invoked := [] |}.

Definition set_registeredFunctions (f : gmap string ScriptFunction) (G : Globals) : Globals :=
  {| registeredFunctions := f; state := state G; actionQueue := actionQueue G;
     featureHandlers := featureHandlers G; console := console G; invoked := invoked G |}.

Definition set_state (s : option ApplicationState) (G : Globals) : Globals :=
  {| registeredFunctions := registeredFunctions G; state := s; actionQueue := actionQueue G;
     featureHandlers := featureHandlers G; console := console G; invoked := invoked G |}.

Definition set_actionQueue (q : option (list AnyAction)) (G : Globals) : Globals :=
  {| registeredFunctions := registeredFunctions G; state := state G; actionQueue := q;
     featureHandlers := featureHandlers G; console := console G; invoked := invoked G |}.

Definition set_featureHandlers (h : gmap string (list FeatureExecutionHandler)) (G : Globals) : Globals :=
  {| registeredFunctions := registeredFunctions G; state := state G; actionQueue := actionQueue G;
     featureHandlers := h; console := console G; invoked := invoked G |}.

Definition console_write (line : string) (G : Globals) : Globals :=
  {| registeredFunctions := registeredFunctions G; state := state G; actionQueue := actionQueue G;
     featureHandlers := featureHandlers G; console := console G ++ [line]; invoked := invoked G |}.

Definition record_call (key : string) (position : nat) (G : Globals) : Globals :=
  {| registeredFunctions := registeredFunctions G; state := state G; actionQueue := actionQueue G;
     featureHandlers := featureHandlers G; console := console G;
     invoked := invoked G ++ [(key, position)] |}.

(** [if (!shadowing && actionQueue) actionQueue.push(value)] *)
Definition queue_action (value : AnyAction) (shadowing : bool) (G : Globals) : Globals :=
  match actionQueue G with
  | Some queue => if negb shadowing then set_actionQueue (Some (queue ++ [value])) G else G
  | None => G
  end.

(** [queueGeneratedActions(generator, shadowing)]. Each [match] is one
    [generator.next()]; the result is the final value, the generator as
    the loop leaves it, and the globals. *)
Fixpoint queueGeneratedActions (generator : ScriptGenerator) (shadowing : bool) (G : Globals)
  : option VariableValue * ScriptGenerator * Globals :=
  match generator with
  | GReturn v => (v, GReturn None, G)
  | GYield value rest => queueGeneratedActions rest shadowing (queue_action value shadowing G)
  end.

(** [wrapScriptFunction(func, state, db, shadowing)]: the function the
    script sees. *)
Definition wrapScriptFunction (func : ScriptFunction) (st : option ApplicationState)
    (db : DB) (shadowing : bool) (args : list VariableValue) (G : Globals)
  : option VariableValue * Globals :=
  match func st db args with
  | RGenerator generator =>
      let '(value, _, G') := queueGeneratedActions generator shadowing G in (value, G')
  | RValue v => (Some v, G)
  | RVoid => (None, G)
  end.

(** [createScriptDispatchMiddleware(finalizeAction)(storeApi)(next)(action)].
    [getState] is what [storeApi.getState()] answers; [next] is the rest of
    the reducer chain, which may run scripts and so acts on the globals.
    The local [queue] is the array [actionQueue] names while [next] runs.
    The result carries the actions handed to [storeApi.dispatch], in order. *)
Definition createScriptDispatchMiddleware {R : Type}
    (finalizeAction : option (AnyAction -> AnyAction))
    (getState : ApplicationState)
    (next : AnyAction -> Globals -> R * Globals)
    (action : AnyAction) (G : Globals) : R * list AnyAction * Globals :=
  let G := set_actionQueue (Some []) G in
  let G := set_state (Some getState) G in
  let '(result, G) := next action G in
  let queue := default [] (actionQueue G) in
  let G := set_actionQueue None G in
  let G := set_state None G in
  let finalize :=
    match finalizeAction with
    | Some f => if (0 <? length queue)%nat then [f action] else []
    | None => []
    end in
  (result, queue ++ finalize, G).

(** [RegisterScriptFunction(name, func)] *)
Definition RegisterScriptFunction (name : string) (func : ScriptFunction) (G : Globals) : Globals :=
  set_registeredFunctions (<[name := func]> (registeredFunctions G)) G.

(** [ClearRegisteredScriptFunctions()] *)
Definition ClearRegisteredScriptFunctions (G : Globals) : Globals :=
  set_registeredFunctions ∅ G.

(** [RegisterFeatureExecutionHandler(name, handler)] *)
Definition RegisterFeatureExecutionHandler (name : string) (handler : FeatureExecutionHandler)
    (G : Globals) : Globals :=
  match featureHandlers G !! name with
  | None => set_featureHandlers (<[name := [handler]]> (featureHandlers G)) G
  | Some handlers => set_featureHandlers (<[name := handlers ++ [handler]]> (featureHandlers G)) G
  end.

(** [ClearRegisteredFeatureHandlers()] *)
Definition ClearRegisteredFeatureHandlers (G : Globals) : Globals :=
  set_featureHandlers ∅ G.

(** [for (const handler of handlers)] in [OnNodeExecution] *)
Fixpoint runHandlers (key : string) (data : FeatureProps)
    (handlers : list FeatureExecutionHandler) (position : nat)
    (node : Node) (st : State) (G : Globals) : Globals :=
  match handlers with
  | [] => G
  | handler :: rest =>
      let G := record_call key position G in
      let G :=
        match handler (node_db node) data node st with
        | RGenerator generator => (queueGeneratedActions generator false G).2
        | _ => G
        end in
      runHandlers key data rest (S position) node st G
  end.

(** [for (const key of Object.keys(node.template))] in [OnNodeExecution] *)
Fixpoint runFeatures (features : TemplateProps) (node : Node) (st : State) (G : Globals) : Globals :=
  match features with
  | [] => G
  | (key, data) :: rest =>
      match featureHandlers G !! key with
      | None => G
      | Some handlers => runFeatures rest node st (runHandlers key data handlers 0 node st G)
      end
  end.

(** [OnNodeExecution(node, state)] *)
Definition OnNodeExecution (node : Node) (st : State) (G : Globals) : Globals :=
  match template node with
  | None => G
  | Some features => runFeatures features node st G
  end.

(** The names every plain object inherits from [Object.prototype]
    ([toString], [constructor] and so on): [name in registeredFunctions]
    holds for them whatever was registered. *)
Context (inherited : string -> bool).

(** [VerifyRegisteredScriptMethod(method)] *)
Definition VerifyRegisteredScriptMethod (method : ScriptMethodDef) (G : Globals)
  : bool * Globals :=
  if bool_decide (is_Some (registeredFunctions G !! Name method)) || inherited (Name method)
  then (true, G)
  else (false,
        console_write ("Script method " +:+ Name method
                       +:+ " is used in this Articy Database but is not registered in code!") G).

End Script.

Arguments Globals : clear implicits.
Arguments ScriptFunction : clear implicits.
Arguments FeatureExecutionHandler : clear implicits.

End Script.

(** ** iterator.ts *)
Module Iterator.

(** [VisitSet]: visit counts and last-visited turn, both keyed by node id. *)
Record VisitSet : Type := mkVisitSet {
  counts : gmap string Z;
  indicies : gmap string Z
}.

(** [FlowState]. [variables] is the reference to the store object. *)
Record FlowState : Type := mkFlowState {
  fs_id : option Id;
  fs_last : option Id;
  variables : StoreRef;
  shadowing : option bool
}.

(** [iter.variables = vars] *)
Definition set_variables (vars : StoreRef) (iter : FlowState) : FlowState :=
  {| fs_id := fs_id iter; fs_last := fs_last iter; variables := vars; shadowing := shadowing iter |}.

(** [{ ...state, shadowing: flag }] *)
Definition set_shadowing (flag : option bool) (iter : FlowState) : FlowState :=
  {| fs_id := fs_id iter; fs_last := fs_last iter; variables := variables iter; shadowing := flag |}.

(** [enum CustomStopType] *)
Inductive CustomStopType : Type :=
| NormalStop
| StopAndContinue
| Continue.

(** What a custom stop handler can answer at run time: a member of the enum,
    nothing, or some other value. *)
Inductive StopBehaviour : Type :=
| Behaviour (kind : CustomStopType)
| Undefined
| Unexpected (value : string).

(** What a call can come to: it returns, it throws, or the fuel given to
    the branch search ran out. *)
Inductive Outcome (A : Type) : Type :=
| Returns (a : A)
| Throws (error : string)
| OutOfFuel.
Arguments Returns {A} a.
Arguments Throws {A} error.
Arguments OutOfFuel {A}.

Section Iterator.
Context {Node : Type} `{BaseFlowNode Node}.
Context {ApplicationState : Type}.

(** [class FlowBranch] *)
Record FlowBranch : Type := mkFlowBranch {
  index : Z;
  path : list Node
}.

(** [destination()]: [path[path.length - 1]] *)
Definition destination (branch : FlowBranch) : option Node := last (path branch).

(** [branch.path.push(node)] *)
Definition push (node : Node) (branch : FlowBranch) : FlowBranch :=
  mkFlowBranch (index branch) (path branch ++ [node]).

(** [AdvancedFlowState extends FlowState] *)
Record AdvancedFlowState : Type := mkAdvancedFlowState {
  flow : FlowState;
  branches : list FlowBranch;
  visits : VisitSet;
  turn : Z
}.

(** [AdvancedIterationConfig] *)
Record AdvancedIterationConfig : Type := mkConfig {
  stopAtTypes : list string;
  customStopHandler : option (Node -> VisitSet -> StopBehaviour)
}.

(** Everything the iterator can change: the heap of variable stores and
    the globals of [script.ts]. Two ghost fields count what the walk does:
    [clones] is the number of [cloneVariableStore] calls and [steps] lists
    the node of every walk iteration, in order. *)
Record World : Type := mkWorld {
  stores : list VariableStore;
  clones : nat;
  steps : list Node;
  script : Script.Globals Node AdvancedFlowState ApplicationState (Database Node)
}.

(** The store object a reference names. *)
Definition read (w : World) (vars : StoreRef) : VariableStore :=
  default ∅ (stores w !! vars).

(** In-place change of the store object [vars]. *)
Definition write (vars : StoreRef) (content : VariableStore) (w : World) : World :=
  {| stores := <[vars := content]> (stores w); clones := clones w;
     steps := steps w; script := script w |}.

(** A new store object. *)
Definition alloc (content : VariableStore) (w : World) : StoreRef * World :=
  (length (stores w),
   {| stores := stores w ++ [content]; clones := clones w;
      steps := steps w; script := script w |}).

Definition count_clone (w : World) : World :=
  {| stores := stores w; clones := S (clones w); steps := steps w; script := script w |}.

Definition record_step (node : Node) (w : World) : World :=
  {| stores := stores w; clones := clones w; steps := steps w ++ [node]; script := script w |}.

Definition set_script
    (G : Script.Globals Node AdvancedFlowState ApplicationState (Database Node))
    (w : World) : World :=
  {| stores := stores w; clones := clones w; steps := steps w; script := G |}.

(** [console.log(line)] *)
Definition console_log (line : string) (w : World) : World :=
  set_script (Script.console_write line (script w)) w.

(** [cloneVariableStore(vars)]: [JSON.parse(JSON.stringify(vars))], a new
    object with the same content. *)
Definition cloneVariableStore (vars : StoreRef) (w : World) : StoreRef * World :=
  alloc (read w vars) (count_clone w).

(** The world when both modules have just been loaded. Store 0 is the
    object literal [variables: {}] of [NullAdvancedFlowState]. *)
Definition initialWorld : World :=
  {| stores := [∅]; clones := 0; steps := []; script := Script.initial |}.

Definition NullAdvancedFlowState : AdvancedFlowState :=
  {| flow := {| fs_id := None; fs_last := None; variables := 0%nat; shadowing := None |};
     branches := [];
     visits := {| counts := ∅; indicies := ∅ |};
     turn := 0 |}.

Context (db : Database Node).

(** [basicNextFlowState(db, state, branchIndex)] *)
Definition basicNextFlowState (state : FlowState) (branchIndex : Z) (w : World)
  : FlowState * option Node * World :=
  match present (fs_id state) with
  | None => (state, None, w)
  | Some id =>
      let node := getObject db id in
      let '(found, w) :=
        match node with
        | Some node =>
            let '(content, found) :=
              next node (read w (variables state)) branchIndex (fs_last state)
                   (default false (shadowing state)) in
            (found, write (variables state) content w)
        | None => (None, w)
        end in
      match found with
      | None =>
          let '(empty, w) := alloc ∅ w in
          ({| fs_id := None; fs_last := None; variables := empty;
              shadowing := shadowing state |}, None, w)
      | Some found =>
          ({| fs_id := Some (node_Id found); fs_last := Some id;
              variables := variables state; shadowing := shadowing state |},
           Some found, w)
      end
  end.

(** [shouldStopAt(node, stopAtTypes)] *)
Definition shouldStopAt (node : Node) (types : list string) : bool :=
  (0 <? length (List.filter (fun t => node_is node t) types))%nat.

(** The visit-limitation test of [collectBranches]:
    [limit_feature && limit_feature.Only_Once] and
    [(visits.counts[node.properties.Id] ?? 0) > 0]. *)
Definition visitLimited (seen : VisitSet) (node : Node) : bool :=
  match template node ≫= (fun t => feature t "Visit_Limitation") with
  | Some limit_feature =>
      truthy (limit_feature !! "Only_Once")
      && (0 <? default 0 (counts seen !! node_Id node))
  | None => false
  end.

Section Collect.
Context (config : AdvancedIterationConfig) (seen : VisitSet).

Section Loops.
(** The recursive call [collectBranches(db, iter, config, visits,
    forked, index, direction, node)]. *)
Context (recur : World -> FlowState -> FlowBranch -> Z -> Z -> Node ->
                 option (list FlowBranch * FlowState * World)).

(** [for (let i = 0; i < branches; i++)]: [todo] iterations are left.
    Every call is handed the same [iter] object. *)
Fixpoint forkLoop (todo : nat) (i : Z) (w : World) (iter : FlowState)
    (branch : FlowBranch) (index : Z) (node : Node) (result : list FlowBranch)
  : option (list FlowBranch * FlowState * World) :=
  match todo with
  | O => Some (result, iter, w)
  | S todo =>
      let forked := mkFlowBranch index (path branch) in
      match recur w iter forked index i node with
      | None => None
      | Some (found, iter, w) =>
          let result := result ++ found in
          let index :=
            match last result with
            | Some b => Iterator.index b + 1
            | None => index
            end in
          forkLoop todo (i + 1) w iter branch index node result
      end
  end.

(** [while (branches === 1 || direction >= 0)] and the fork after it.
    [caller] is the object the caller handed in, once the local [iter]
    names another object; [None] while [iter] is still that object. *)
Fixpoint whileLoop (fuel : nat) (w : World) (caller : option FlowState)
    (iter : FlowState) (node : Node) (branch : FlowBranch)
    (index direction branches : Z)
  : option (list FlowBranch * FlowState * World) :=
  if (branches =? 1) || (0 <=? direction) then
    match fuel with
    | O => None
    | S fuel =>
        let '(iter, w) :=
          if needsShadow node then
            let '(vars, w) := cloneVariableStore (variables iter) w in
            (set_variables vars iter, w)
          else (iter, w) in
        let handed := default iter caller in
        let '(iter, found, w) := basicNextFlowState iter direction (record_step node w) in
        match found with
        | None => Some ([], handed, w)
        | Some node =>
            if visitLimited seen node then Some ([], handed, w) else
            let branch := push node branch in
            let continue :=
              whileLoop fuel w (Some handed) iter node branch index (-1)
                (numBranches node (read w (variables iter)) (fs_last iter)
                   (default false (shadowing iter))) in
            if shouldStopAt node (stopAtTypes config) then
              match customStopHandler config with
              | Some handler =>
                  match handler node seen with
                  | Behaviour NormalStop | Undefined => Some ([branch], handed, w)
                  | Behaviour StopAndContinue =>
                      let forked := mkFlowBranch (index + 1) (path branch) in
                      match recur w iter forked (index + 1) 0 node with
                      | None => None
                      | Some (found, _, w) => Some (branch :: found, handed, w)
                      end
                  | Behaviour Continue => continue
                  | Unexpected value =>
                      Some ([branch], handed,
                            console_log ("Unexpected custom stop behaviour found: "
                                         +:+ value
                                         +:+ ". Unsure what to do.... Stopping here.") w)
                  end
              | None => Some ([branch], handed, w)
              end
            else continue
        end
    end
  else
    match forkLoop (Z.to_nat branches) 0 w iter branch index node [] with
    | None => None
    | Some (result, iter, w) => Some (result, default iter caller, w)
    end.
End Loops.

(** The two halves of one turn of [whileLoop], named for the proofs.
    [shadowed] is the store the turn steps with: a clone when the node
    needs a shadow. [arrived] is what the turn does once the step has
    reached [node]. *)
Definition shadowed (node : Node) (iter : FlowState) (w : World) : FlowState * World :=
  if needsShadow node then
    let '(vars, w) := cloneVariableStore (variables iter) w in
    (set_variables vars iter, w)
  else (iter, w).

Definition arrived
    (recur : World -> FlowState -> FlowBranch -> Z -> Z -> Node ->
             option (list FlowBranch * FlowState * World))
    (fuel : nat) (w : World) (handed iter : FlowState) (node : Node)
    (branch : FlowBranch) (index : Z)
  : option (list FlowBranch * FlowState * World) :=
  if visitLimited seen node then Some ([], handed, w) else
  let branch := push node branch in
  let continue :=
    whileLoop recur fuel w (Some handed) iter node branch index (-1)
      (numBranches node (read w (variables iter)) (fs_last iter)
         (default false (shadowing iter))) in
  if shouldStopAt node (stopAtTypes config) then
    match customStopHandler config with
    | Some handler =>
        match handler node seen with
        | Behaviour NormalStop | Undefined => Some ([branch], handed, w)
        | Behaviour StopAndContinue =>
            match recur w iter (mkFlowBranch (index + 1) (path branch)) (index + 1) 0 node with
            | None => None
            | Some (found, _, w) => Some (branch :: found, handed, w)
            end
        | Behaviour Continue => continue
        | Unexpected value =>
            Some ([branch], handed,
                  console_log ("Unexpected custom stop behaviour found: "
                               +:+ value
                               +:+ ". Unsure what to do.... Stopping here.") w)
        end
    | None => Some ([branch], handed, w)
    end
  else continue.

(** [collectBranches(db, iter, config, visits, branch, index, direction,
    node)]. The result carries the [iter] object as the call leaves it. *)
Fixpoint collectBranches (fuel : nat) (w : World) (iter : FlowState)
    (branch : option FlowBranch) (index direction : Z) (node : option Node)
  : option (list FlowBranch * FlowState * World) :=
  match fuel with
  | O => None
  | S fuel =>
      match present (fs_id iter) with
      | None => Some ([], iter, w)
      | Some id =>
          match (match node with Some node => Some node | None => getObject db id end) with
          | None => Some ([], iter, w)
          | Some node =>
              let branch := default (mkFlowBranch index []) branch in
              let branches :=
                numBranches node (read w (variables iter)) (fs_last iter)
                  (default false (shadowing iter)) in
              whileLoop
                (fun w iter forked index direction node =>
                   collectBranches fuel w iter (Some forked) index direction (Some node))
                fuel w None iter node branch index direction branches
          end
      end
  end.
End Collect.

Context (config : AdvancedIterationConfig).

(** [refreshBranches(db, state, config)] *)
Definition refreshBranches (fuel : nat) (state : AdvancedFlowState) (w : World)
  : option (AdvancedFlowState * World) :=
  let vars := variables (flow state) in
  match collectBranches config (visits state) fuel w
          (set_shadowing (Some true) (flow state)) None 0 (-1) None with
  | None => None
  | Some (found, _, w) =>
      Some ({| flow := set_variables vars (flow state); branches := found;
               visits := visits state; turn := turn state |}, w)
  end.

(** [for (const step of branch.path)] in [advancedNextFlowState] *)
Fixpoint executePath (todo : list Node) (state : AdvancedFlowState) (vars : StoreRef)
    (hasCloned : bool) (seen : VisitSet) (w : World)
  : StoreRef * bool * VisitSet * World :=
  match todo with
  | [] => (vars, hasCloned, seen, w)
  | step :: todo =>
      let '(vars, hasCloned, w) :=
        if negb hasCloned && needsShadow step then
          let '(vars, w) := cloneVariableStore vars w in (vars, true, w)
        else (vars, hasCloned, w) in
      let w := write vars (execute step (read w vars)) w in
      let w := set_script (Script.OnNodeExecution (fun _ => db) step state (script w)) w in
      let count := default 0 (counts seen !! node_Id step) + 1 in
      let seen :=
        {| counts := <[node_Id step := count]> (counts seen);
           indicies := <[node_Id step := turn state]> (indicies seen) |} in
      executePath todo state vars hasCloned seen w
  end.

(** [advancedNextFlowState(db, state, config, branchIndex)]. Reading
    [curr.properties.Id] of an undefined [curr] throws. *)
Definition advancedNextFlowState (fuel : nat) (state : AdvancedFlowState)
    (branchIndex : Z) (w : World)
  : Outcome (AdvancedFlowState * option Node * World) :=
  if (branchIndex <? 0) || (Z.of_nat (length (branches state)) <=? branchIndex) then
    Returns (state, None, w)
  else
    match present (fs_id (flow state)) with
    | None => Returns (state, None, w)
    | Some id =>
        match List.find (fun x => index x =? branchIndex) (branches state) with
        | None => Returns (state, None, w)
        | Some branch =>
            let '(vars, _, seen, w) :=
              executePath (path branch) state (variables (flow state)) false
                (visits state) w in
            let last_node := getObject db id in
            let last_node :=
              if (1 <? length (path branch))%nat
              then path branch !! (length (path branch) - 2)%nat
              else last_node in
            match path branch !! (length (path branch) - 1)%nat with
            | None => Throws "TypeError: Cannot read properties of undefined"
            | Some curr =>
                let newFlowState :=
                  {| flow := {| fs_id := Some (node_Id curr);
                                fs_last := node_Id <$> last_node;
                                variables := vars;
                                shadowing := None |};
                     branches := [];
                     visits := seen;
                     turn := turn state + 1 |} in
                match refreshBranches fuel newFlowState w with
                | None => OutOfFuel
                | Some (refreshed, w) => Returns (refreshed, Some curr, w)
                end
            end
        end
    end.

(** The variable [initial] of [advancedStartupFlowState]: the fresh state
    at [start], with its branches refreshed. *)
Definition startupInitial (fuel : nat) (start : Id) (w : World)
  : option (AdvancedFlowState * World) :=
  let '(vars, w) := alloc (newVariableStore db) w in
  refreshBranches fuel
    {| flow := {| fs_id := Some start; fs_last := None; variables := vars;
                  shadowing := None |};
       branches := [];
       visits := {| counts := ∅; indicies := ∅ |};
       turn := 0 |} w.

(** [advancedStartupFlowState(db, start, config)] *)
Definition advancedStartupFlowState (fuel : nat) (start : Id) (w : World)
  : Outcome (AdvancedFlowState * option Node * World) :=
  match startupInitial fuel start w with
  | None => OutOfFuel
  | Some (initial, w) =>
      match getObject db start with
      | None => Returns (NullAdvancedFlowState, None, w)
      | Some node =>
          if shouldStopAt node (stopAtTypes config) then Returns (initial, Some node, w)
          else advancedNextFlowState fuel initial 0 w
      end
  end.

(** [for (let i = 0; i < numChildren; i++)] in [getFlowStateChildren]:
    [todo] iterations are left. Every [next] is handed the store of the
    state itself. *)
Fixpoint childrenLoop (todo : nat) (i : Z) (node : Node) (state : FlowState) (w : World)
    (children : list Node) : list Node * World :=
  match todo with
  | O => (children, w)
  | S todo =>
      let '(content, child) :=
        next node (read w (variables state)) i (fs_last state)
             (default false (shadowing state)) in
      let w := write (variables state) content w in
      let children :=
        match child with
        | Some child => children ++ [child]
        | None => children
        end in
      childrenLoop todo (i + 1) node state w children
  end.

(** [getFlowStateChildren(db, state, node)] *)
Definition getFlowStateChildren (state : FlowState) (node : option Node) (w : World)
  : list Node * World :=
  match present (fs_id state) with
  | None => ([], w)
  | Some id =>
      match (match node with Some node => Some node | None => getObject db id end) with
      | None => ([], w)
      | Some node =>
          let numChildren :=
            numBranches node (read w (variables state)) (fs_last state)
              (default false (shadowing state)) in
          childrenLoop (Z.to_nat numChildren) 0 node state w []
      end
  end.

(** [destinationIs(type)] for a type name: [this.destination().is(type)]
    throws when the path is empty. *)
Definition destinationIs (branch : FlowBranch) (type : string) : Outcome bool :=
  match destination branch with
  | None => Throws "TypeError: Cannot read properties of undefined"
  | Some dest => Returns (node_is dest type)
  end.

(** [destinationAs(type, typeString)]. The class [type] is the test
    [dest instanceof type]; an absent or empty [typeString] is not checked. *)
Definition destinationAs (branch : FlowBranch) (type : Node -> bool)
    (typeString : option string) : option Node :=
  match destination branch with
  | None => None
  | Some dest =>
      if negb (type dest) then None
      else
        match present typeString with
        | Some name => if negb (node_is dest name) then None else Some dest
        | None => Some dest
        end
  end.

(** [for (let i = 0; i < this.path.length; i++)] in [pathHas] *)
Fixpoint pathHasFrom (items : list Node) (type : Node -> bool) (typeString : string)
  : option Node :=
  match items with
  | [] => None
  | item :: rest =>
      if negb (type item) then pathHasFrom rest type typeString
      else
        match present (Some typeString) with
        | Some name =>
            if negb (node_is item name) then pathHasFrom rest type typeString
            else Some item
        | None => Some item
        end
  end.

(** [pathHas(type, typeString)] *)
Definition pathHas (branch : FlowBranch) (type : Node -> bool) (typeString : string)
  : option Node :=
  pathHasFrom (path branch) type typeString.

(** *** Vocabulary of the properties *)

(** A run of committing calls of [advancedNextFlowState]: each call
    returns a destination node. [log] lists, for every call, the state it
    was given, the branch index and the state it returned. *)
Inductive commits :
    AdvancedFlowState -> World ->
    list (AdvancedFlowState * Z * AdvancedFlowState) ->
    AdvancedFlowState -> World -> Prop :=
| commits_done state w : commits state w [] state w
| commits_step fuel state w branchIndex state' curr w' log final w'' :
    advancedNextFlowState fuel state branchIndex w = Returns (state', Some curr, w') ->
    commits state' w' log final w'' ->
    commits state w ((state, branchIndex, state') :: log) final w''.

(** Every store object of [w] still exists in [w'], with the content it
    had in [w]. *)
Definition keeps_stores (w w' : World) : Prop :=
  (length (stores w) <= length (stores w'))%nat
  /\ forall vars : StoreRef,
       (vars < length (stores w))%nat -> stores w' !! vars = stores w !! vars.

(** From [w] to [w'] the walk went through the nodes [walked], and cloned
    once for each of them that needs a shadow. *)
Definition clones_per_step (w w' : World) : Prop :=
  exists walked : list Node,
    steps w' = steps w ++ walked
    /\ clones w' = (clones w + length (List.filter needsShadow walked))%nat.

(** The branches of [found] carry the indices [index], [index + 1], ... in
    the order of the list. *)
Fixpoint numbered (index : Z) (found : list FlowBranch) : Prop :=
  match found with
  | [] => True
  | branch :: rest => Iterator.index branch = index /\ numbered (index + 1) rest
  end.

(** [branch] is a finished branch grown from the path [base]: it adds at
    least one node, none of the added nodes was refused by the visit
    limitation for [seen], and the last one matches the stop set. *)
Definition finished (config : AdvancedIterationConfig) (seen : VisitSet)
    (base : list Node) (branch : FlowBranch) : Prop :=
  exists (middle : list Node) (dest : Node),
    path branch = base ++ middle ++ [dest]
    /\ Forall (fun node => visitLimited seen node = false) (middle ++ [dest])
    /\ shouldStopAt dest (stopAtTypes config) = true.

(** The test [pathHas] and [destinationAs] apply to a node. *)
Definition matches (type : Node -> bool) (typeString : option string) (node : Node) : bool :=
  type node
  && match present typeString with
     | Some name => node_is node name
     | None => true
     end.

End Iterator.

Arguments FlowBranch : clear implicits.
Arguments AdvancedFlowState : clear implicits.
Arguments AdvancedIterationConfig : clear implicits.
Arguments World : clear implicits.
Arguments commits {Node _ ApplicationState} db config _ _ _ _ _.

End Iterator.

(** ** A small flow, used to run the definitions

    An instruction [A] leads to a hub [B], which leads to a dialogue
    fragment [C]; [C] leads to a second hub [F] that forks to the dialogue
    fragments [D] and [E]. [A] and [B] run a script when the walk steps over
    them, and say so with [needsShadow]. [D] may be visited only once and
    carries two more features. *)
Module Demo.
Import Iterator.

Inductive DemoNode : Type := NA | NB | NC | ND | NE | NF.

Definition demo_Id (node : DemoNode) : Id :=
  match node with
  | NA => "A" | NB => "B" | NC => "C" | ND => "D" | NE => "E" | NF => "F"
  end.

Definition demo_type (node : DemoNode) : string :=
  match node with
  | NA => "Instruction"
  | NB | NF => "Hub"
  | NC | ND | NE => "DialogueFragment"
  end.

(** The data of a Visit_Limitation feature that allows one visit. *)
Definition only_once : FeatureProps := {["Only_Once" := VBool true]}.

Definition demo_template (node : DemoNode) : option TemplateProps :=
  match node with
  | ND => Some [("Visit_Limitation", only_once);
                ("Unhandled", ∅);
                ("Logged", ∅)]
  | _ => None
  end.

Definition demo_numBranches (node : DemoNode) : Z :=
  match node with
  | NA | NB | NC => 1
  | NF => 2
  | ND | NE => 0
  end.

Definition demo_target (node : DemoNode) (branchIndex : Z) : option DemoNode :=
  match node with
  | NA => Some NB
  | NB => Some NC
  | NC => Some NF
  | NF => if branchIndex =? 0 then Some ND else if branchIndex =? 1 then Some NE else None
  | ND | NE => None
  end.

(** The script of a node: [A] and [B] each set a flag. *)
Definition demo_script (node : DemoNode) (vars : VariableStore) : VariableStore :=
  match node with
  | NA => <["reached_A" := VBool true]> vars
  | NB => <["reached_B" := VBool true]> vars
  | _ => vars
  end.

Definition demo_needsShadow (node : DemoNode) : bool :=
  match node with
  | NA | NB => true
  | _ => false
  end.

#[export] Instance demo_node : BaseFlowNode DemoNode := {|
  node_Id := demo_Id;
  node_is := fun node t => String.eqb (demo_type node) t;
  template := demo_template;
  numBranches := fun node _ _ _ => demo_numBranches node;
  next := fun node vars branchIndex _ _ => (demo_script node vars, demo_target node branchIndex);
  needsShadow := demo_needsShadow;
  execute := demo_script
|}.

Definition demo_db : Database DemoNode := {|
  getObject := fun id =>
    List.find (fun node => String.eqb (demo_Id node) id) [NA; NB; NC; ND; NE; NF];
  newVariableStore := {["started" := VBool true]}
|}.

(** Stop at dialogue fragments. *)
Definition plain : AdvancedIterationConfig DemoNode :=
  {| stopAtTypes := ["DialogueFragment"]; customStopHandler := None |}.

(** Stop at hubs and dialogue fragments; a hub is a stop the search goes on
    from. *)
Definition through_hubs : AdvancedIterationConfig DemoNode :=
  {| stopAtTypes := ["Hub"; "DialogueFragment"];
     customStopHandler := Some (fun node _ =>
       match node with
       | NB | NF => Behaviour StopAndContinue
       | _ => Behaviour NormalStop
       end) |}.

Definition nothing_seen : VisitSet := {| counts := ∅; indicies := ∅ |}.


(** The world the demo runs in: the loaded modules and one committed store. *)
Definition world : World DemoNode unit :=
  {| stores := [∅; {["started" := VBool true]}]; clones := 0; steps := [];
     script := Script.initial |}.

(** A flow state at [id] that owns store 1. *)
Definition at_node (id : Id) : FlowState :=
  {| fs_id := Some id; fs_last := None; variables := 1%nat; shadowing := Some true |}.

(** A committed state at [A] that owns store 1, with nothing cached. *)
Definition committed : AdvancedFlowState DemoNode :=
  {| flow := {| fs_id := Some "A"; fs_last := None; variables := 1%nat; shadowing := None |};
     branches := [];
     visits := nothing_seen;
     turn := 0 |}.

(** The globals of [script.ts] as the demo instantiates them. *)
Abbreviation DemoGlobals :=
  (Script.Globals DemoNode (AdvancedFlowState DemoNode) unit (Database DemoNode)).

(** A native function that defers two actions and returns 7. *)
Definition award : Script.ScriptFunction unit (Database DemoNode) :=
  fun _ _ _ =>
    Script.RGenerator
      (Script.GYield (mkAction "score/add" (Some (VNumber 5)))
         (Script.GYield (mkAction "log/append" (Some (VString "awarded")))
            (Script.GReturn (Some (VNumber 7))))).

(** The globals in the middle of a dispatch: an empty queue is in place. *)
Definition dispatching : DemoGlobals := Script.set_actionQueue (Some []) Script.initial.

(** A feature handler that does nothing. *)
Definition quiet : Script.FeatureExecutionHandler DemoNode (AdvancedFlowState DemoNode)
                     (Database DemoNode) :=
  fun _ _ _ _ => Script.RVoid.

(** Handlers for the first and the third feature of [D], none for the second. *)
Definition two_handlers : DemoGlobals :=
  Script.RegisterFeatureExecutionHandler "Logged" quiet
    (Script.RegisterFeatureExecutionHandler "Visit_Limitation" quiet Script.initial).

(** The committed state with its branches refreshed, and the world after. *)
Definition ready : option (AdvancedFlowState DemoNode * World DemoNode unit) :=
  refreshBranches demo_db plain 3 committed world.

(** A hand-made state whose only cached branch has an empty path. *)
Definition broken : AdvancedFlowState DemoNode :=
  {| flow := flow committed;
     branches := [ {| index := 0; path := [] |} ];
     visits := nothing_seen;
     turn := 0 |}.

(** Some of the names a plain object inherits. *)
Definition demo_inherited (name : string) : bool :=
  bool_decide (name ∈ ["constructor"; "hasOwnProperty"; "toString"; "valueOf"]).

(** Handlers for all three features of [D]: two for the first. *)
Definition all_handlers : DemoGlobals :=
  Script.RegisterFeatureExecutionHandler "Unhandled" quiet
    (Script.RegisterFeatureExecutionHandler "Visit_Limitation" quiet two_handlers).

End Demo.

(** * Properties of script.ts *)
Module ScriptFacts.
Import Script.

Section Facts.
Context {Node State ApplicationState DB : Type}.
Context `{BaseFlowNode Node}.
Context (node_db : Node -> DB).

Implicit Types G : Globals Node State ApplicationState DB.
Implicit Types generator : ScriptGenerator.

Lemma queue_action_shadowing value G : queue_action value true G = G.
Proof. unfold queue_action. by destruct (actionQueue G). Qed.

Lemma queue_action_no_queue value shadowing G :
  actionQueue G = None -> queue_action value shadowing G = G.
Proof. intros HQ. unfold queue_action. by rewrite HQ. Qed.

(** In shadow mode the loop runs to the end of the generator and leaves
    the globals as they were. *)
Lemma queueGeneratedActions_shadowing generator G :
  queueGeneratedActions generator true G = (gen_return generator, GReturn None, G).
Proof.
  revert G. induction generator as [v | value rest IH]; intros G; simpl.
  - reflexivity.
  - rewrite queue_action_shadowing. apply IH.
Qed.

Lemma queueGeneratedActions_no_queue generator shadowing G :
  actionQueue G = None ->
  queueGeneratedActions generator shadowing G = (gen_return generator, GReturn None, G).
Proof.
  intros HQ. induction generator as [v | value rest IH]; simpl.
  - reflexivity.
  - rewrite queue_action_no_queue by exact HQ. apply IH.
Qed.

(** With a queue in place and no shadowing, every action is appended. *)
Lemma queueGeneratedActions_queues generator G queue :
  actionQueue G = Some queue ->
  queueGeneratedActions generator false G
  = (gen_return generator, GReturn None,
     set_actionQueue (Some (queue ++ gen_actions generator)) G).
Proof.
  revert G queue. induction generator as [v | value rest IH]; intros G queue HQ; simpl.
  - rewrite app_nil_r. destruct G; simpl in *; by subst.
  - unfold queue_action. rewrite HQ. simpl.
    erewrite IH by reflexivity. by rewrite <- app_assoc.
Qed.

(** Queueing touches nothing but the queue. *)
Lemma queueGeneratedActions_frame generator shadowing G :
  let G' := (queueGeneratedActions generator shadowing G).2 in
  featureHandlers G' = featureHandlers G /\ invoked G' = invoked G
  /\ console G' = console G.
Proof.
  revert G. induction generator as [v | value rest IH]; intros G; simpl.
  - done.
  - destruct (IH (queue_action value shadowing G)) as (H1 & H2 & H3).
    simpl in *. rewrite H1, H2, H3. unfold queue_action.
    destruct (actionQueue G); [destruct shadowing |]; done.
Qed.

(** The handlers of one feature leave the registry alone and record one
    call each, all under that feature's name. *)
Lemma runHandlers_frame key data handlers position node st G :
  let G' := runHandlers node_db key data handlers position node st G in
  featureHandlers G' = featureHandlers G
  /\ exists calls, invoked G' = invoked G ++ calls
                   /\ Forall (fun call => call.1 = key) calls.
Proof.
  revert position G. induction handlers as [| handler rest IH]; intros position G; simpl.
  - split; [done |]. exists []. by rewrite app_nil_r.
  - match goal with |- context [runHandlers _ _ _ _ _ _ _ ?G1] =>
      destruct (IH (S position) G1) as (HF & calls & HI & HC) end.
    simpl in *. rewrite HF, HI.
    assert (forall G0 r,
      let G1 := match r with
                | RGenerator generator => (queueGeneratedActions generator false G0).2
                | _ => G0 end in
      featureHandlers G1 = featureHandlers G0 /\ invoked G1 = invoked G0) as Hstep.
    { intros G0 [v | | generator]; simpl; try done.
      destruct (queueGeneratedActions_frame generator false G0) as (? & ? & ?). done. }
    destruct (Hstep (record_call key position G) (handler (node_db node) data node st))
      as [HF1 HI1].
    simpl in *. rewrite HF1, HI1. split; [done |].
    exists ((key, position) :: calls). split.
    + by rewrite <- app_assoc.
    + by constructor.
Qed.

Lemma runFeatures_frame features node st G :
  let G' := runFeatures node_db features node st G in
  featureHandlers G' = featureHandlers G
  /\ exists calls, invoked G' = invoked G ++ calls
                   /\ Forall (fun call => call.1 ∈ features.*1) calls.
Proof.
  revert G. induction features as [| [key data] rest IH]; intros G; simpl.
  - split; [done |]. exists []. by rewrite app_nil_r.
  - destruct (featureHandlers G !! key) as [handlers |] eqn:HK.
    + destruct (runHandlers_frame key data handlers 0%nat node st G) as (HF & c1 & HI & HC).
      destruct (IH (runHandlers node_db key data handlers 0 node st G)) as (HF' & c2 & HI' & HC').
      simpl in *. rewrite HF', HF, HI', HI. split; [done |].
      exists (c1 ++ c2). split; [by rewrite app_assoc |].
      apply Forall_app. split.
      * eapply Forall_impl; [exact HC |]. intros call ->. apply list_elem_of_here.
      * eapply Forall_impl; [exact HC' |]. intros call ?. by apply list_elem_of_further.
    + split; [done |]. exists []. by rewrite app_nil_r.
Qed.

(** A feature without handlers ends the loop: what follows it is not run. *)
Lemma runFeatures_stops before key data after node st G :
  featureHandlers G !! key = None ->
  runFeatures node_db (before ++ (key, data) :: after) node st G
  = runFeatures node_db before node st G.
Proof.
  revert G. induction before as [| [k d] rest IH]; intros G HK; simpl.
  - by rewrite HK.
  - destruct (featureHandlers G !! k) as [handlers |] eqn:Hk; [| done].
    apply IH.
    destruct (runHandlers_frame k d handlers 0%nat node st G) as [HF _].
    simpl in HF. by rewrite HF.
Qed.

(** C8. When a registered function answers with a generator of deferred
    actions and the shadowing flag is set, the wrapped function runs the
    generator to its end (it is left finished, with nothing more to
    yield), appends nothing to the action queue (the globals are what they
    were) and returns the generator's final return value. *)
Theorem shadowed_generator_drained_not_queued
    (func : ScriptFunction ApplicationState DB) st db args generator G :
  func st db args = RGenerator generator ->
  wrapScriptFunction func st db true args G = (gen_return generator, G)
  /\ exists finished,
       queueGeneratedActions generator true G = (gen_return generator, finished, G)
       /\ gen_actions finished = []
       /\ gen_next finished = (Done None, finished).
Proof.
  intros Hcall. unfold wrapScriptFunction. rewrite Hcall.
  rewrite queueGeneratedActions_shadowing. split; [done |].
  exists (GReturn None). done.
Qed.

(** C9. When the template of a node lists a feature that has no registered
    handler, [OnNodeExecution] does exactly what it does on the features
    enumerated before that one: it returns there, and every handler call
    it makes is for one of those earlier features, so with unique feature
    names no handler of a later feature is called. *)
Theorem OnNodeExecution_returns_at_unhandled_feature
    node (st : State) G before key data after :
  template node = Some (before ++ (key, data) :: after) ->
  NoDup (before ++ (key, data) :: after).*1 ->
  featureHandlers G !! key = None ->
  let G' := OnNodeExecution node_db node st G in
  G' = runFeatures node_db before node st G
  /\ exists calls,
       invoked G' = invoked G ++ calls
       /\ Forall (fun call => call.1 ∈ before.*1) calls
       /\ forall later position, later ∈ after.*1 -> (later, position) ∉ calls.
Proof.
  intros HT HN HK G'. subst G'. unfold OnNodeExecution. rewrite HT.
  rewrite runFeatures_stops by exact HK. split; [done |].
  destruct (runFeatures_frame before node st G) as (_ & calls & HI & HC).
  exists calls. split; [exact HI |]. split; [exact HC |].
  intros later position Hlater Hin.
  rewrite Forall_forall in HC. specialize (HC _ Hin). simpl in HC.
  rewrite fmap_app in HN. apply NoDup_app in HN as (_ & Hdisj & _).
  apply (Hdisj later HC). rewrite fmap_cons. by apply list_elem_of_further.
Qed.

(** C10. With no dispatch under way (no action queue), the deferred
    actions of a generator are dropped even when shadowing is off: the
    globals, console included, are unchanged and only the final value
    comes back. The queue is undefined when the module is loaded; the
    middleware installs an empty queue for the time of [next] and removes
    it again before it returns. *)
Theorem actions_without_dispatch_are_dropped
    (func : ScriptFunction ApplicationState DB) st db args generator G :
  actionQueue G = None ->
  func st db args = RGenerator generator ->
  queueGeneratedActions generator false G = (gen_return generator, GReturn None, G)
  /\ wrapScriptFunction func st db false args G = (gen_return generator, G)
  /\ actionQueue (initial : Globals Node State ApplicationState DB) = None
  /\ forall (R : Type) finalizeAction getState
            (next : AnyAction -> Globals Node State ApplicationState DB -> R * _) action,
       let during := set_state (Some getState) (set_actionQueue (Some []) G) in
       let after := createScriptDispatchMiddleware finalizeAction getState next action G in
       actionQueue during = Some []
       /\ after.1.1 = (next action during).1
       /\ actionQueue after.2 = None.
Proof.
  intros HQ Hcall. split; [| split; [| split]].
  - by apply queueGeneratedActions_no_queue.
  - unfold wrapScriptFunction. rewrite Hcall.
    by rewrite queueGeneratedActions_no_queue.
  - reflexivity.
  - intros R finalizeAction getState next action during after.
    subst during after. unfold createScriptDispatchMiddleware.
    destruct (next action _) as [result G1]. simpl. done.
Qed.

End Facts.
End ScriptFacts.

(** * Properties of iterator.ts *)
Module IteratorFacts.
Import Iterator.

Section Facts.
Context {Node : Type} `{BaseFlowNode Node} {ApplicationState : Type}.
Context (db : Database Node).

Implicit Types w : World Node ApplicationState.
Implicit Types state : AdvancedFlowState Node.
Implicit Types iter : FlowState.
Implicit Types config : AdvancedIterationConfig Node.
Implicit Types branch : FlowBranch Node.
Implicit Types node : Node.

(** ** One step *)

(** When the current node resolves and has a target, the step moves there
    and leaves in the store what the node's [next] left. *)
Lemma basicNextFlowState_moves iter branchIndex w id node target :
  present (fs_id iter) = Some id ->
  getObject db id = Some node ->
  (next node (read w (variables iter)) branchIndex (fs_last iter)
     (default false (shadowing iter))).2 = Some target ->
  exists content,
    basicNextFlowState db iter branchIndex w
    = ({| fs_id := Some (node_Id target); fs_last := Some id;
          variables := variables iter; shadowing := shadowing iter |},
       Some target, write (variables iter) content w).
Proof.
  intros Hid Hnode Hnext. unfold basicNextFlowState. rewrite Hid, Hnode.
  destruct (next node _ _ _ _) as [content found]. simpl in Hnext. subst found.
  by exists content.
Qed.

(** C4 (as amended). When the state has no id, [basicNextFlowState]
    returns the very state it was given, with no node, and changes
    nothing. When the state has an id but the node does not resolve, or
    has no target for the requested branch, it returns the reset state:
    no id, no last id, a new empty variable store and the shadowing flag
    of the input, with no node. No case throws. *)
Theorem basicNextFlowState_nowhere_to_go iter branchIndex w :
  (present (fs_id iter) = None
   \/ exists id, present (fs_id iter) = Some id
        /\ match getObject db id with
           | None => True
           | Some node =>
               (next node (read w (variables iter)) branchIndex (fs_last iter)
                  (default false (shadowing iter))).2 = None
           end) ->
  exists iter' w',
    basicNextFlowState db iter branchIndex w = (iter', None, w')
    /\ match present (fs_id iter) with
       | None => iter' = iter /\ w' = w
       | Some _ =>
           fs_id iter' = None /\ fs_last iter' = None
           /\ read w' (variables iter') = ∅
           /\ variables iter' = length (stores w)
           /\ shadowing iter' = shadowing iter
       end.
Proof.
  intros [Hid | (id & Hid & Hend)]; unfold basicNextFlowState; rewrite Hid.
  - by exists iter, w.
  - destruct (getObject db id) as [node |].
    + destruct (next node _ _ _ _) as [content found]. simpl in Hend. subst found.
      eexists _, _. split; [reflexivity |]. simpl.
      repeat split; try done.
      * unfold read. simpl. by rewrite list_lookup_middle.
      * by rewrite length_insert.
    + eexists _, _. split; [reflexivity |]. simpl.
      repeat split; try done.
      unfold read. simpl. by rewrite list_lookup_middle.
Qed.

(** ** The commit step *)

(** C7. For a branch index that is negative, or not below the number of
    cached branches, or carried by no cached branch, the call returns the
    state it was given with no destination node, changes nothing and does
    not throw, whatever the fuel. *)
Theorem advancedNextFlowState_bad_index config fuel state branchIndex w :
  (branchIndex < 0
   \/ Z.of_nat (length (branches state)) <= branchIndex
   \/ Forall (fun branch => index branch <> branchIndex) (branches state)) ->
  advancedNextFlowState db config fuel state branchIndex w = Returns (state, None, w).
Proof.
  intros Hbad. unfold advancedNextFlowState.
  destruct (branchIndex <? 0) eqn:Hneg; [done |].
  destruct (Z.of_nat (length (branches state)) <=? branchIndex) eqn:Hlen; [done |].
  simpl. destruct (present (fs_id (flow state))); [| done].
  destruct (List.find _ (branches state)) as [branch |] eqn:Hfind; [| done].
  exfalso. apply find_some in Hfind as [Hin Heq].
  destruct Hbad as [? | [? | Hall]]; [lia | lia |].
  rewrite Forall_forall in Hall. apply list_elem_of_In in Hin.
  specialize (Hall _ Hin). lia.
Qed.

(** ** Unfolding the branch search by one call, and the walk by one turn *)

Lemma collectBranches_unfold config seen fuel w iter given index direction start :
  collectBranches db config seen (S fuel) w iter given index direction start
  = match present (fs_id iter) with
    | None => Some ([], iter, w)
    | Some id =>
        match (match start with Some node => Some node | None => getObject db id end) with
        | None => Some ([], iter, w)
        | Some node =>
            whileLoop db config seen
              (fun w iter forked index direction node =>
                 collectBranches db config seen fuel w iter (Some forked) index direction
                   (Some node))
              fuel w None iter node (default (mkFlowBranch index []) given) index direction
              (numBranches node (read w (variables iter)) (fs_last iter)
                 (default false (shadowing iter)))
        end
    end.
Proof. reflexivity. Qed.

Lemma whileLoop_unfold config seen recur fuel w caller iter node branch index direction count :
  whileLoop db config seen recur fuel w caller iter node branch index direction count
  = if (count =? 1) || (0 <=? direction) then
      match fuel with
      | O => None
      | S fuel =>
          let '(iter, w) := shadowed node iter w in
          let handed := default iter caller in
          let '(iter, found, w) := basicNextFlowState db iter direction (record_step node w) in
          match found with
          | None => Some ([], handed, w)
          | Some node => arrived db config seen recur fuel w handed iter node branch index
          end
      end
    else
      match forkLoop recur (Z.to_nat count) 0 w iter branch index node [] with
      | None => None
      | Some (result, iter, w) => Some (result, default iter caller, w)
      end.
Proof.
  destruct fuel; [reflexivity |]. unfold shadowed, arrived. simpl.
  destruct ((count =? 1) || (0 <=? direction)); [| reflexivity].
  destruct (needsShadow node); reflexivity.
Qed.

(** ** Stop and continue *)

(** C1. Let A, B, C be a linear chain in the database: A has one branch
    and leads to B, and B leads to C along branch 0. Let B and C match the
    stop set and be free of a visit limit, and let the custom stop handler
    answer StopAndContinue at B and NormalStop at C. Then
    [collectBranches] called at A, with enough fuel, returns exactly two
    branches: the first has index 0 and path [B], the second has index 1
    and path [B, C]. *)
Theorem collectBranches_stop_and_continue
    config seen fuel w iter a A B C handler :
  present (fs_id iter) = Some a ->
  getObject db a = Some A ->
  (forall vars last_id flag, numBranches A vars last_id flag = 1) ->
  (forall vars last_id flag, (next A vars (-1) last_id flag).2 = Some B) ->
  present (Some (node_Id B)) = Some (node_Id B) ->
  getObject db (node_Id B) = Some B ->
  (forall vars last_id flag, (next B vars 0 last_id flag).2 = Some C) ->
  visitLimited seen B = false ->
  visitLimited seen C = false ->
  shouldStopAt B (stopAtTypes config) = true ->
  shouldStopAt C (stopAtTypes config) = true ->
  customStopHandler config = Some handler ->
  handler B seen = Behaviour StopAndContinue ->
  handler C seen = Behaviour NormalStop ->
  exists iter' w',
    collectBranches db config seen (3 + fuel) w iter None 0 (-1) None
    = Some ([ {| index := 0; path := [B] |}; {| index := 1; path := [B; C] |} ],
            iter', w')
    /\ destination {| index := 0; path := [B] |} = Some B
    /\ destination {| index := 1; path := [B; C] |} = Some C.
Proof.
  intros Ha HA HA1 HAB HB HdbB HBC HlimB HlimC HstopB HstopC Hh HhB HhC.
  assert (forall iter1 w1, present (fs_id iter1) = Some a ->
            exists content,
              basicNextFlowState db iter1 (-1) w1
              = ({| fs_id := Some (node_Id B); fs_last := Some a;
                    variables := variables iter1; shadowing := shadowing iter1 |},
                 Some B, write (variables iter1) content w1)) as HstepA.
  { intros iter1 w1 Hiter. eapply basicNextFlowState_moves; eauto. }
  assert (forall iter1 w1, fs_id iter1 = Some (node_Id B) ->
            exists content,
              basicNextFlowState db iter1 0 w1
              = ({| fs_id := Some (node_Id C); fs_last := Some (node_Id B);
                    variables := variables iter1; shadowing := shadowing iter1 |},
                 Some C, write (variables iter1) content w1)) as HstepB.
  { intros iter1 w1 Hiter. eapply basicNextFlowState_moves; eauto. by rewrite Hiter. }
  (* the second activation: from B, direction 0 *)
  assert (forall iter1 w1, fs_id iter1 = Some (node_Id B) ->
            exists iter2 w2,
              collectBranches db config seen (S (S fuel)) w1 iter1
                (Some {| index := 1; path := [B] |}) 1 0 (Some B)
              = Some ([ {| index := 1; path := [B; C] |} ], iter2, w2)) as Hsecond.
  { intros iter1 w1 Hiter. rewrite collectBranches_unfold, Hiter, HB.
    rewrite whileLoop_unfold, orb_true_r. unfold shadowed.
    destruct (needsShadow B).
    - cbn [cloneVariableStore alloc].
      edestruct (HstepB (set_variables (length (stores (count_clone w1))) iter1))
        as [content ->]; [done |].
      unfold arrived. rewrite HlimC, HstopC, Hh, HhC. by eexists _, _.
    - edestruct (HstepB iter1) as [content ->]; [done |].
      unfold arrived. rewrite HlimC, HstopC, Hh, HhC. by eexists _, _. }
  change (3 + fuel)%nat with (S (S (S fuel))).
  rewrite collectBranches_unfold, Ha, HA, HA1.
  rewrite whileLoop_unfold. cbn [Z.eqb Pos.eqb orb default]. unfold shadowed.
  destruct (needsShadow A).
  - cbn [cloneVariableStore alloc].
    edestruct (HstepA (set_variables (length (stores (count_clone w))) iter))
      as [content ->]; [done |].
    unfold arrived. rewrite HlimB, HstopB, Hh, HhB.
    cbn [Z.add push path index app].
    edestruct Hsecond as (iter2 & w2 & ->); [reflexivity |].
    by eexists _, _.
  - edestruct (HstepA iter) as [content ->]; [done |].
    unfold arrived. rewrite HlimB, HstopB, Hh, HhB.
    cbn [Z.add push path index app].
    edestruct Hsecond as (iter2 & w2 & ->); [reflexivity |].
    by eexists _, _.
Qed.

(** ** A proof rule for the branch search

    [P] is kept by the world, [K] ties the flow state to the node the walk
    is at, and [B] holds of every branch in progress. If each turn of the
    walk keeps them, every branch the search returns satisfies [B], the
    world it leaves satisfies [P], and the flow state it was handed still
    has the id it had. *)
Section Rule.
Context (config : AdvancedIterationConfig Node) (seen : VisitSet).
Context (P : World Node ApplicationState -> Prop).
Context (K : FlowState -> Node -> Prop).
Context (B : FlowBranch Node -> Prop).

Hypothesis K_resolved : forall iter id node,
  present (fs_id iter) = Some id -> getObject db id = Some node -> K iter node.
Hypothesis K_same_id : forall iter iter' node,
  fs_id iter' = fs_id iter -> K iter node -> K iter' node.
Hypothesis P_turn : forall w iter node direction,
  P w -> K iter node ->
  let '(iter1, w1) := shadowed node iter w in
  let '(iter2, found, w2) := basicNextFlowState db iter1 direction (record_step node w1) in
  P w2 /\ forall arrival, found = Some arrival -> K iter2 arrival.
Hypothesis P_log : forall w line, P w -> P (console_log line w).
Hypothesis B_push : forall branch node,
  B branch -> visitLimited seen node = false -> B (push node branch).
Hypothesis B_copy : forall branch index, B branch -> B (mkFlowBranch index (path branch)).
Hypothesis B_fresh : forall index, B (mkFlowBranch index []).

Local Abbreviation sound recur :=
  (forall w iter forked index direction node found iter' w',
     recur w iter forked index direction node = Some (found, iter', w') ->
     P w -> K iter node -> B forked ->
     P w' /\ Forall B found /\ fs_id iter' = fs_id iter).

Lemma shadowed_id node iter w : fs_id (shadowed node iter w).1 = fs_id iter.
Proof. unfold shadowed. by destruct (needsShadow node). Qed.

Lemma forkLoop_rule recur (Hrecur : sound recur) todo :
  forall i w iter branch index node result found iter' w',
    forkLoop recur todo i w iter branch index node result = Some (found, iter', w') ->
    P w -> K iter node -> B branch -> Forall B result ->
    P w' /\ Forall B found /\ fs_id iter' = fs_id iter.
Proof.
  induction todo as [| todo IH]; intros i w iter branch index node result found iter' w';
    simpl; intros Hrun HP HK HB Hres.
  - by inversion Hrun; subst.
  - destruct (recur w iter _ index i node) as [[[sub iter1] w1] |] eqn:Hcall; [| done].
    apply Hrecur in Hcall as (HP1 & Hsub & Hid1); auto.
    apply IH in Hrun as (HP' & Hfound & Hid'); auto.
    + repeat split; auto. congruence.
    + eapply K_same_id; eauto.
    + by apply Forall_app.
Qed.

Lemma whileLoop_rule recur (Hrecur : sound recur) fuel :
  forall w caller iter node branch index direction count found iter' w',
    whileLoop db config seen recur fuel w caller iter node branch index direction count
    = Some (found, iter', w') ->
    P w -> K iter node -> B branch ->
    P w' /\ Forall B found /\ fs_id iter' = fs_id (default iter caller).
Proof.
  induction fuel as [| fuel IH];
    intros w caller iter node branch index direction count found iter' w';
    rewrite whileLoop_unfold; intros Hrun HP HK HB.
  - destruct ((count =? 1) || (0 <=? direction)); [done |].
    destruct (forkLoop _ _ _ _ _ _ _ _ _) as [[[result iter1] w1] |] eqn:Hfork; [| done].
    inversion Hrun; subst. eapply forkLoop_rule in Hfork as (? & ? & Hid); eauto.
    repeat split; auto. by destruct caller.
  - destruct ((count =? 1) || (0 <=? direction)).
    + pose proof (P_turn w iter node direction HP HK) as Hturn.
      pose proof (shadowed_id node iter w) as Hsid.
      destruct (shadowed node iter w) as [iter1 w1]. simpl in Hsid.
      destruct (basicNextFlowState db iter1 direction _) as [[iter2 arrival] w2].
      destruct Hturn as [HP2 HK2].
      assert (fs_id (default iter1 caller) = fs_id (default iter caller)) as Hhanded
        by (by destruct caller).
      destruct arrival as [arrival |]; [| by inversion Hrun; subst].
      specialize (HK2 _ eq_refl).
      unfold arrived in Hrun.
      destruct (visitLimited seen arrival) eqn:Hlim; [by inversion Hrun; subst |].
      assert (B (push arrival branch)) as HB' by auto.
      assert (whileLoop db config seen recur fuel w2 (Some (default iter1 caller)) iter2
                arrival (push arrival branch) index (-1)
                (numBranches arrival (read w2 (variables iter2)) (fs_last iter2)
                   (default false (shadowing iter2)))
              = Some (found, iter', w') ->
              P w' /\ Forall B found /\ fs_id iter' = fs_id (default iter caller))
        as Hcontinue.
      { intros Hgo. apply IH in Hgo as (? & ? & Hid); auto.
        repeat split; auto. simpl in Hid. congruence. }
      destruct (shouldStopAt arrival (stopAtTypes config)); [| by auto].
      destruct (customStopHandler config) as [handler |];
        [| by inversion Hrun; subst; repeat split; auto].
      destruct (handler arrival seen) as [[| |] | | value].
      * inversion Hrun; subst; repeat split; auto.
      * destruct (recur w2 iter2 _ (index + 1) 0 arrival) as [[[rest iter3] w3] |] eqn:Hcall;
          [| done].
        inversion Hrun; subst.
        apply Hrecur in Hcall as (? & ? & ?); auto.
      * auto.
      * inversion Hrun; subst; repeat split; auto.
      * inversion Hrun; subst; repeat split; auto.
    + destruct (forkLoop _ _ _ _ _ _ _ _ _) as [[[result iter1] w1] |] eqn:Hfork; [| done].
      inversion Hrun; subst. eapply forkLoop_rule in Hfork as (? & ? & Hid); eauto.
      repeat split; auto. by destruct caller.
Qed.

Lemma collectBranches_rule fuel :
  forall w iter given index direction start found iter' w',
    collectBranches db config seen fuel w iter given index direction start
    = Some (found, iter', w') ->
    P w ->
    (forall node, start = Some node -> K iter node) ->
    (forall branch, given = Some branch -> B branch) ->
    P w' /\ Forall B found /\ fs_id iter' = fs_id iter.
Proof.
  induction fuel as [| fuel IH];
    intros w iter given index direction start found iter' w'; [done |].
  rewrite collectBranches_unfold. intros Hrun HP HK HB.
  destruct (present (fs_id iter)) as [id |] eqn:Hid; [| by inversion Hrun; subst].
  assert (forall node,
            match start with Some node => Some node | None => getObject db id end = Some node ->
            K iter node) as HK'.
  { intros node. destruct start; [auto |]. intros Hobj. eapply K_resolved; eauto. }
  destruct (match start with Some node => Some node | None => getObject db id end)
    as [node |]; [| by inversion Hrun; subst].
  eapply whileLoop_rule in Hrun; eauto.
  - intros w1 iter1 forked index1 direction1 node1 found1 iter1' w1' Hcall HP1 HK1 HB1.
    eapply IH; eauto.
    + by intros ? [= <-].
    + by intros ? [= <-].
  - destruct given; simpl; auto.
Qed.
End Rule.

(** ** Visit limitation *)


(** ** Cloning of the variable store *)

Lemma clones_per_step_refl w : clones_per_step w w.
Proof. exists []. by rewrite app_nil_r, Nat.add_0_r. Qed.

Lemma clones_per_step_trans w1 w2 w3 :
  clones_per_step w1 w2 -> clones_per_step w2 w3 -> clones_per_step w1 w3.
Proof.
  intros (a & Hs1 & Hc1) (b & Hs2 & Hc2). exists (a ++ b).
  rewrite Hs2, Hs1, Hc2, Hc1, List.filter_app, length_app, <- app_assoc. split; [done | lia].
Qed.

(** A step touches the stores only: the two counters stay. *)
Lemma basicNextFlowState_counters iter branchIndex w :
  let w' := (basicNextFlowState db iter branchIndex w).2 in
  steps w' = steps w /\ clones w' = clones w /\ script w' = script w.
Proof.
  unfold basicNextFlowState.
  destruct (present (fs_id iter)) as [id |]; [| done].
  destruct (getObject db id) as [node |].
  - destruct (next node _ _ _ _) as [content [target |]]; done.
  - done.
Qed.

(** One turn of the walk: a clone exactly when the node needs a shadow. *)
Lemma turn_clones node iter direction w :
  clones_per_step w
    (basicNextFlowState db (shadowed node iter w).1 direction
       (record_step node (shadowed node iter w).2)).2.
Proof.
  destruct (basicNextFlowState_counters (shadowed node iter w).1 direction
              (record_step node (shadowed node iter w).2)) as (Hs & Hc & _).
  exists [node]. rewrite Hs, Hc. unfold shadowed. simpl.
  destruct (needsShadow node); simpl; split; try done; lia.
Qed.

(** C3 (as amended). The walk of [collectBranches] clones the variable
    store once for every node that needs a shadow and that it steps from:
    from the world before the call to the world after it, the number of
    clones grows by the number of shadow-needing nodes among the nodes
    stepped from, so a path through two such nodes costs two clones. *)
Theorem collectBranches_clones_at_every_shadow_step
    config seen fuel w iter given index direction start found iter' w' :
  collectBranches db config seen fuel w iter given index direction start
  = Some (found, iter', w') ->
  exists walked,
    steps w' = steps w ++ walked
    /\ clones w' = (clones w + length (List.filter needsShadow walked))%nat.
Proof.
  intros Hrun.
  eapply (collectBranches_rule config seen (clones_per_step w) (fun _ _ => True)
            (fun _ => True)) in Hrun as (Hcost & _ & _); try done.
  - intros w1 iter1 node direction1 Hcost _.
    pose proof (turn_clones node iter1 direction1 w1) as Hturn.
    destruct (shadowed node iter1 w1) as [iter2 w2]. simpl in Hturn.
    destruct (basicNextFlowState db iter2 direction1 _) as [[iter3 arrival] w3].
    simpl in Hturn. split; [| done]. by eapply clones_per_step_trans.
  - apply clones_per_step_refl.
Qed.

(** ** Isolation of the committed store *)

Lemma keeps_stores_refl w : keeps_stores w w.
Proof. split; [lia | done]. Qed.

Lemma keeps_stores_trans w1 w2 w3 :
  keeps_stores w1 w2 -> keeps_stores w2 w3 -> keeps_stores w1 w3.
Proof.
  intros [Hl1 Hk1] [Hl2 Hk2]. split; [lia |].
  intros vars Hvars. rewrite Hk2 by lia. by apply Hk1.
Qed.

Lemma alloc_keeps content w : keeps_stores w (alloc content w).2.
Proof.
  split; simpl.
  - rewrite length_app. lia.
  - intros vars Hvars. by apply lookup_app_l.
Qed.

(** Writing into a store made after [base], or writing back what a store
    holds, keeps the stores of [base]. *)
Lemma write_keeps base w vars content :
  keeps_stores base w ->
  (length (stores base) <= vars)%nat \/ content = read w vars ->
  keeps_stores base (write vars content w).
Proof.
  intros [Hlen Hkeep] Hwhere. split; simpl.
  - by rewrite length_insert.
  - intros old Hold. rewrite <- Hkeep by done.
    destruct Hwhere as [Hnew | ->].
    + apply list_lookup_insert_ne. lia.
    + destruct (decide (vars = old)) as [-> |]; [| by apply list_lookup_insert_ne].
      unfold read. destruct (stores w !! old) as [content |] eqn:Hold'.
      * simpl. by rewrite list_insert_id.
      * rewrite list_insert_ge; [done |]. by apply lookup_ge_None.
Qed.


(** ** Turn accounting *)

(** Refreshing recomputes the branches and nothing else. *)
Lemma refreshBranches_fields config fuel state w state' w' :
  refreshBranches db config fuel state w = Some (state', w') ->
  flow state' = flow state /\ visits state' = visits state /\ turn state' = turn state.
Proof.
  unfold refreshBranches.
  destruct (collectBranches _ _ _ _ _ _ _ _ _ _) as [[[found iter'] w1] |]; [| done].
  intros [= <- <-]. simpl. by destruct (flow state).
Qed.

(** Every step of the path is recorded at the turn of the state the
    commit began with, and a later step does not undo an earlier record. *)
Lemma executePath_indicies todo :
  forall state vars hasCloned seen w,
    let seen' := (executePath db todo state vars hasCloned seen w).1.2 in
    (forall node, node ∈ todo -> indicies seen' !! node_Id node = Some (turn state))
    /\ (forall id, indicies seen !! id = Some (turn state) ->
                   indicies seen' !! id = Some (turn state)).
Proof.
  induction todo as [| step todo IH]; intros state vars hasCloned seen w; simpl.
  - split; [| done]. intros node Hin. by apply elem_of_nil in Hin.
  - destruct (negb hasCloned && needsShadow step); simpl;
      match goal with |- context [executePath db todo state ?v ?h ?s ?w1] =>
        destruct (IH state v h s w1) as [Hpath Hkept] end;
      simpl in *;
      (split;
       [ intros node [-> | Hin]%elem_of_cons; [| by apply Hpath];
         apply Hkept; simpl; apply lookup_insert_eq
       | intros id Hid; apply Hkept; simpl;
         destruct (decide (node_Id step = id)) as [-> |];
           [apply lookup_insert_eq | by rewrite lookup_insert_ne] ]).
Qed.

(** One committing call: the turn goes up by one, and the nodes of the
    branch it followed are recorded at the turn it began with. *)
Lemma advancedNextFlowState_commit config fuel state branchIndex w state' curr w' :
  advancedNextFlowState db config fuel state branchIndex w = Returns (state', Some curr, w') ->
  turn state' = turn state + 1
  /\ exists branch,
       List.find (fun x => index x =? branchIndex) (branches state) = Some branch
       /\ destination branch = Some curr
       /\ forall node, node ∈ path branch ->
                       indicies (visits state') !! node_Id node = Some (turn state).
Proof.
  unfold advancedNextFlowState.
  destruct ((branchIndex <? 0) || _); [done |].
  destruct (present (fs_id (flow state))) as [id |]; [| done].
  destruct (List.find _ (branches state)) as [branch |]; [| done].
  pose proof (executePath_indicies (path branch) state (variables (flow state)) false
                (visits state) w) as [Hpath _].
  destruct (executePath db _ _ _ _ _ _) as [[[vars hasCloned] seen] w1]. simpl in Hpath.
  destruct (path branch !! _) as [dest |] eqn:Hdest; [| done].
  destruct (refreshBranches _ _ _ _ _) as [[refreshed w2] |] eqn:Hrefresh; [| done].
  intros [= <- <- <-].
  apply refreshBranches_fields in Hrefresh as (_ & Hvisits & Hturn). simpl in *.
  split; [done |]. exists branch. split; [done |]. split.
  - unfold destination. rewrite last_lookup. rewrite <- Hdest. f_equal. lia.
  - intros node Hin. rewrite Hvisits. by apply Hpath.
Qed.

Lemma commits_turn config state w log final w' :
  commits db config state w log final w' ->
  turn final = turn state + Z.of_nat (length log)
  /\ Forall (fun '(before, branchIndex, after) =>
               turn after = turn before + 1
               /\ exists branch,
                    List.find (fun x => index x =? branchIndex) (branches before)
                    = Some branch
                    /\ forall node, node ∈ path branch ->
                         indicies (visits after) !! node_Id node = Some (turn before))
            log.
Proof.
  induction 1 as [state w | fuel state w branchIndex state' curr w' log final w'' Hcall _ IH].
  - split; [simpl; lia | constructor].
  - apply advancedNextFlowState_commit in Hcall as (Hturn & branch & Hfind & _ & Hpath).
    destruct IH as [Hfinal Hlog]. split.
    + rewrite Hfinal, Hturn. simpl length. lia.
    + constructor; [| done]. split; [done |]. by exists branch.
Qed.

(** The state [advancedStartupFlowState] returns is the fresh state after
    no commit (the start node is a stop) or after one (it is not). *)
Lemma advancedStartupFlowState_commits config fuel start w0 state node w' :
  advancedStartupFlowState db config fuel start w0 = Returns (state, Some node, w') ->
  exists fresh w log,
    startupInitial db config fuel start w0 = Some (fresh, w)
    /\ commits db config fresh w log state w'
    /\ (length log <= 1)%nat.
Proof.
  unfold advancedStartupFlowState.
  destruct (startupInitial _ _ _ _ _) as [[fresh w] |]; [| done].
  destruct (getObject db start) as [first |]; [| done].
  destruct (shouldStopAt first _).
  - intros [= <- <- <-]. exists fresh, w, []. split; [done |]. split; [constructor | simpl; lia].
  - intros Hcall. exists fresh, w, [(fresh, 0, state)]. split; [done |].
    split; [| simpl; lia]. econstructor; [exact Hcall | constructor].
Qed.

(** The turn counts the commits made since the state startup builds
    before it steps (turn 0, nothing visited): N committing calls of
    [advancedNextFlowState] from that state reach turn N. *)
Theorem turn_accounting config fuel start w0 fresh w log final w' :
  startupInitial db config fuel start w0 = Some (fresh, w) ->
  commits db config fresh w log final w' ->
  turn final = Z.of_nat (length log)
  /\ Forall (fun '(before, branchIndex, after) =>
               turn after = turn before + 1
               /\ exists branch,
                    List.find (fun x => index x =? branchIndex) (branches before)
                    = Some branch
                    /\ forall node, node ∈ path branch ->
                         indicies (visits after) !! node_Id node = Some (turn before))
            log.
Proof.
  intros Hfresh Hcommits. apply commits_turn in Hcommits as [Hturn Hlog].
  split; [| done]. rewrite Hturn.
  unfold startupInitial in Hfresh. simpl in Hfresh.
  apply refreshBranches_fields in Hfresh as (_ & _ & ->). simpl. lia.
Qed.

(** A call that returns no destination node returns the state it was given. *)
Lemma advancedNextFlowState_no_destination config fuel state branchIndex w state' w' :
  advancedNextFlowState db config fuel state branchIndex w = Returns (state', None, w') ->
  state' = state.
Proof.
  unfold advancedNextFlowState.
  destruct ((branchIndex <? 0) || _); [by intros [= <- <-] |].
  destruct (present (fs_id (flow state))) as [id |]; [| by intros [= <- <-]].
  destruct (List.find _ (branches state)) as [branch |]; [| by intros [= <- <-]].
  destruct (executePath db _ _ _ _ _ _) as [[[vars hasCloned] seen] w1].
  destruct (path branch !! _) as [dest |]; [| done].
  by destruct (refreshBranches _ _ _ _ _) as [[refreshed w2] |].
Qed.

(** C6 (as amended). The state [advancedStartupFlowState] returns has
    turn 0 when it did not step (the start node is a stop, or nothing was
    reached) and turn 1 when it took the first step itself (the start node
    resolves, is no stop, and a destination was reached). N committing
    calls of [advancedNextFlowState] in a row from that state reach its
    turn plus N. Every one of the calls raises the turn by one, and
    records every node of the branch it followed at the turn of the state
    the call began with, not at the raised turn. *)
Theorem turn_accounting_from_startup
    config fuel start w0 started reached w log final w' :
  advancedStartupFlowState db config fuel start w0 = Returns (started, reached, w) ->
  commits db config started w log final w' ->
  let taken :=
    match getObject db start, reached with
    | Some first, Some _ => if shouldStopAt first (stopAtTypes config) then 0 else 1
    | _, _ => 0
    end in
  turn started = taken
  /\ turn final = taken + Z.of_nat (length log)
  /\ Forall (fun '(before, branchIndex, after) =>
               turn after = turn before + 1
               /\ exists branch,
                    List.find (fun x => index x =? branchIndex) (branches before)
                    = Some branch
                    /\ forall node, node ∈ path branch ->
                         indicies (visits after) !! node_Id node = Some (turn before))
            log.
Proof.
  intros Hstart Hcommits taken.
  apply commits_turn in Hcommits as [Hturn Hlog].
  assert (turn started = taken) as Hstarted.
  { subst taken. unfold advancedStartupFlowState in Hstart.
    destruct (startupInitial db config fuel start w0) as [[initial w1] |] eqn:Hinitial;
      [| done].
    assert (turn initial = 0) as Hzero.
    { unfold startupInitial in Hinitial. simpl in Hinitial.
      by apply refreshBranches_fields in Hinitial as (_ & _ & ->). }
    destruct (getObject db start) as [first |]; [| by injection Hstart as <- <- <-].
    destruct (shouldStopAt first (stopAtTypes config));
      [by injection Hstart as <- <- <- |].
    destruct reached as [curr |].
    - apply advancedNextFlowState_commit in Hstart as [Hstep _]. lia.
    - apply advancedNextFlowState_no_destination in Hstart. by subst. }
  split; [exact Hstarted |]. split; [| exact Hlog]. lia.
Qed.

End Facts.
End IteratorFacts.

(** * The properties on the demo flow *)
Module DemoFacts.
Import Iterator Demo.

(** The demo database resolves every node a step leads to. *)
Lemma demo_db_resolves (node : DemoNode) vars branchIndex last_id flag target id :
  (next node vars branchIndex last_id flag).2 = Some target ->
  present (Some (node_Id target)) = Some id ->
  getObject demo_db id = Some target.
Proof.
  intros Htarget Hid. change (demo_target node branchIndex = Some target) in Htarget.
  destruct node; cbn [demo_target] in Htarget;
    repeat match type of Htarget with
           | (if ?c then _ else _) = _ => destruct c
           end;
    inversion Htarget; subst; inversion Hid; subst; reflexivity.
Defined.

(** Only [A] and [B] change the variables, and both need a shadow. *)
Lemma demo_quiet (node : DemoNode) vars branchIndex last_id flag :
  needsShadow node = false -> (next node vars branchIndex last_id flag).1 = vars.
Proof. by destruct node. Defined.

Lemma collectBranches_stop_and_continue_witness :
  exists iter' w',
    collectBranches demo_db through_hubs nothing_seen 3 world (at_node "A") None 0 (-1) None
    = Some ([ {| index := 0; path := [NB] |}; {| index := 1; path := [NB; NC] |} ], iter', w')
    /\ destination {| index := 0; path := [NB] |} = Some NB
    /\ destination {| index := 1; path := [NB; NC] |} = Some NC.
Proof.
  apply (IteratorFacts.collectBranches_stop_and_continue demo_db through_hubs nothing_seen
           0 world (at_node "A") "A" NA NB NC
           (fun node _ => match node with
                          | NB | NF => Behaviour StopAndContinue
                          | _ => Behaviour NormalStop
                          end)); reflexivity.
Defined.


(** C3, as stated, fails: on the single path from [A] to [C], which has no
    fork, the walk steps from [A] and from [B] and clones the store twice. *)
Lemma collectBranches_clones_twice_on_one_path :
  exists branch iter' w',
    collectBranches demo_db plain nothing_seen 3 world (at_node "A") None 0 (-1) None
    = Some ([branch], iter', w')
    /\ path branch = [NB; NC]
    /\ steps w' = [NA; NB]
    /\ ~ (clones w' <= clones world + 1)%nat.
Proof.
  eexists _, _, _. split; [vm_compute; reflexivity |].
  split; [reflexivity |]. split; [reflexivity |]. vm_compute. lia.
Qed.

Lemma collectBranches_clones_at_every_shadow_step_witness :
  exists found iter' w',
    collectBranches demo_db plain nothing_seen 3 world (at_node "A") None 0 (-1) None
    = Some (found, iter', w')
    /\ exists walked,
         steps w' = steps world ++ walked
         /\ clones w' = (clones world + length (List.filter needsShadow walked))%nat.
Proof.
  eexists _, _, _. split; [vm_compute; reflexivity |].
  eapply (IteratorFacts.collectBranches_clones_at_every_shadow_step demo_db plain nothing_seen
            3 world (at_node "A") None 0 (-1) None).
  vm_compute. reflexivity.
Defined.

(** C4, as stated, fails: a state without an id comes back as it is, with
    its last id and its variables, not reset. *)
Lemma basicNextFlowState_without_id_is_not_reset :
  let iter := {| fs_id := None; fs_last := Some "A"; variables := 1%nat;
                 shadowing := None |} in
  exists iter' w',
    basicNextFlowState demo_db iter 0 world = (iter', None, w')
    /\ ~ (fs_id iter' = None /\ fs_last iter' = None /\ read w' (variables iter') = ∅).
Proof.
  eexists _, _. split; [reflexivity |]. intros (_ & Hlast & _). discriminate Hlast.
Qed.

Lemma basicNextFlowState_nowhere_to_go_witness :
  exists iter' w',
    basicNextFlowState demo_db (at_node "E") (-1) world = (iter', None, w')
    /\ match present (fs_id (at_node "E")) with
       | None => iter' = at_node "E" /\ w' = world
       | Some _ =>
           fs_id iter' = None /\ fs_last iter' = None
           /\ read w' (variables iter') = ∅
           /\ variables iter' = length (stores world)
           /\ shadowing iter' = shadowing (at_node "E")
       end.
Proof.
  apply (IteratorFacts.basicNextFlowState_nowhere_to_go demo_db (at_node "E") (-1) world).
  right. exists "E". split; reflexivity.
Defined.


Lemma advancedNextFlowState_bad_index_witness :
  advancedNextFlowState demo_db plain 0 committed 0 world = Returns (committed, None, world).
Proof.
  apply (IteratorFacts.advancedNextFlowState_bad_index demo_db plain 0 committed 0 world).
  right. left. simpl. lia.
Defined.

Lemma shadowed_generator_drained_not_queued_witness :
  Script.wrapScriptFunction award None demo_db true [] dispatching
  = (Script.gen_return (Script.GYield (mkAction "score/add" (Some (VNumber 5)))
       (Script.GYield (mkAction "log/append" (Some (VString "awarded")))
          (Script.GReturn (Some (VNumber 7))))), dispatching)
  /\ exists finished,
       Script.queueGeneratedActions
         (Script.GYield (mkAction "score/add" (Some (VNumber 5)))
            (Script.GYield (mkAction "log/append" (Some (VString "awarded")))
               (Script.GReturn (Some (VNumber 7))))) true dispatching
       = (Script.gen_return (Script.GYield (mkAction "score/add" (Some (VNumber 5)))
            (Script.GYield (mkAction "log/append" (Some (VString "awarded")))
               (Script.GReturn (Some (VNumber 7))))), finished, dispatching)
       /\ Script.gen_actions finished = []
       /\ Script.gen_next finished = (Script.Done None, finished).
Proof.
  apply (ScriptFacts.shadowed_generator_drained_not_queued award None demo_db [] _ dispatching).
  reflexivity.
Defined.

Lemma OnNodeExecution_returns_at_unhandled_feature_witness :
  let G' := Script.OnNodeExecution (fun _ => demo_db) ND committed two_handlers in
  G' = Script.runFeatures (fun _ => demo_db)
         [("Visit_Limitation", only_once)] ND committed two_handlers
  /\ exists calls,
       Script.invoked G' = Script.invoked two_handlers ++ calls
       /\ Forall (fun call => call.1 ∈ [("Visit_Limitation", only_once)].*1)
            calls
       /\ forall (later : string) (position : nat),
            later ∈ [("Logged", (∅ : FeatureProps))].*1 -> (later, position) ∉ calls.
Proof.
  apply (ScriptFacts.OnNodeExecution_returns_at_unhandled_feature (fun _ => demo_db)
           ND committed two_handlers
           [("Visit_Limitation", only_once)]
           "Unhandled" ∅ [("Logged", ∅)]).
  - reflexivity.
  - compute_done.
  - vm_compute. reflexivity.
Defined.

Lemma actions_without_dispatch_are_dropped_witness :
  Script.actionQueue (Script.initial : DemoGlobals) = None
  /\ Script.wrapScriptFunction award None demo_db false [] (Script.initial : DemoGlobals)
     = (Some (VNumber 7), Script.initial).
Proof.
  split; [reflexivity |].
  destruct (ScriptFacts.actions_without_dispatch_are_dropped award None demo_db [] _
              (Script.initial : DemoGlobals) eq_refl eq_refl) as (_ & Hwrapped & _).
  exact Hwrapped.
Defined.

Lemma turn_accounting_witness :
  exists fresh w log final w',
    startupInitial demo_db plain 5 "A" world = Some (fresh, w)
    /\ commits demo_db plain fresh w log final w'
    /\ length log = 2%nat
    /\ turn final = Z.of_nat (length log)
    /\ Forall (fun '(before, branchIndex, after) =>
                 turn after = turn before + 1
                 /\ exists branch,
                      List.find (fun x => index x =? branchIndex) (branches before)
                      = Some branch
                      /\ forall node, node ∈ path branch ->
                           indicies (visits after) !! node_Id node = Some (turn before))
              log.
Proof.
  eexists _, _, _, _, _.
  split; [vm_compute; reflexivity |].
  split.
  { eapply commits_step with (fuel := 5%nat) (branchIndex := 0); [vm_compute; reflexivity |].
    eapply commits_step with (fuel := 5%nat) (branchIndex := 1); [vm_compute; reflexivity |].
    apply commits_done. }
  split; [reflexivity |].
  eapply (IteratorFacts.turn_accounting demo_db plain 5 "A" world).
  - vm_compute. reflexivity.
  - eapply commits_step with (fuel := 5%nat) (branchIndex := 0); [vm_compute; reflexivity |].
    eapply commits_step with (fuel := 5%nat) (branchIndex := 1); [vm_compute; reflexivity |].
    apply commits_done.
Defined.

(** C6, as stated, fails for the state startup returns: started at [A],
    which is no stop, startup takes the first step itself and returns turn
    1, so one further commit reaches turn 2, not 1. *)
Lemma one_commit_after_startup_reaches_turn_two :
  exists started first w after curr w',
    advancedStartupFlowState demo_db plain 5 "A" world = Returns (started, Some first, w)
    /\ turn started = 1
    /\ advancedNextFlowState demo_db plain 5 started 1 w = Returns (after, Some curr, w')
    /\ ~ turn after = Z.of_nat 1.
Proof.
  eexists _, _, _, _, _, _. split; [vm_compute; reflexivity |].
  split; [reflexivity |]. split; [vm_compute; reflexivity |].
  vm_compute. discriminate.
Qed.

Lemma turn_accounting_from_startup_witness :
  exists started reached w log final w',
    advancedStartupFlowState demo_db plain 5 "A" world = Returns (started, reached, w)
    /\ commits demo_db plain started w log final w'
    /\ length log = 1%nat
    /\ let taken :=
         match getObject demo_db "A", reached with
         | Some first, Some _ => if shouldStopAt first (stopAtTypes plain) then 0 else 1
         | _, _ => 0
         end in
       turn started = taken
       /\ turn final = taken + Z.of_nat (length log)
       /\ Forall (fun '(before, branchIndex, after) =>
                    turn after = turn before + 1
                    /\ exists branch,
                         List.find (fun x => index x =? branchIndex) (branches before)
                         = Some branch
                         /\ forall node, node ∈ path branch ->
                              indicies (visits after) !! node_Id node = Some (turn before))
                 log.
Proof.
  eassert (advancedStartupFlowState demo_db plain 5 "A" world = Returns (_, _, _)) as Hstart
    by (vm_compute; reflexivity).
  match type of Hstart with
  | _ = Returns (?started, _, ?w) =>
      eassert (advancedNextFlowState demo_db plain 5 started 1 w
               = Returns (_, Some _, _)) as Hnext
        by (vm_compute; reflexivity)
  end.
  pose proof (commits_step _ _ _ _ _ _ _ _ _ _ _ _ Hnext (commits_done _ _ _ _)) as Hrun.
  eexists _, _, _, _, _, _.
  split; [exact Hstart |].
  split; [exact Hrun |].
  split; [reflexivity |].
  exact (IteratorFacts.turn_accounting_from_startup demo_db plain 5 "A" world
           _ _ _ _ _ _ Hstart Hrun).
Defined.

End DemoFacts.

(** * More properties of script.ts *)
Module ScriptExtras.
Import Script.

Section Extras.
Context {Node State ApplicationState DB : Type}.
Context `{BaseFlowNode Node}.
Context (node_db : Node -> DB).

Implicit Types G : Globals Node State ApplicationState DB.
Implicit Types generator : ScriptGenerator.

(** ** Deferred actions *)

(** X17. What a native function's generator returns to the script does
    not depend on the mode: with or without shadowing, with or without a
    queue, the loop runs the generator to its end and answers with its
    final value. *)
Theorem queueGeneratedActions_value_ignores_mode generator shadowing G :
  (queueGeneratedActions generator shadowing G).1 = (gen_return generator, GReturn None).
Proof.
  revert G. induction generator as [v | value rest IH]; intros G; simpl; [done |].
  apply IH.
Qed.

(** X18. Outside shadow mode and with a queue in place, the wrapped
    function appends every action of the generator to the queue, in the
    order they are yielded and after what the queue already holds, and
    changes nothing else. *)
Theorem committed_generator_queued_in_order
    (func : ScriptFunction ApplicationState DB) st db args generator G queue :
  func st db args = RGenerator generator ->
  actionQueue G = Some queue ->
  wrapScriptFunction func st db false args G
  = (gen_return generator, set_actionQueue (Some (queue ++ gen_actions generator)) G).
Proof.
  intros Hcall Hqueue. unfold wrapScriptFunction. rewrite Hcall.
  by rewrite (ScriptFacts.queueGeneratedActions_queues generator G queue Hqueue).
Qed.

(** X19. A dispatch whose reducer runs one native function that answers
    with a generator. The function is handed the state of the store. When
    the reducer runs it without shadowing, the middleware dispatches the
    generator's actions in order and then, if there is at least one and a
    finalizer was given, the finalize action; when the reducer runs it in
    shadow mode, nothing is dispatched. Either way the reducer's result is
    returned and the queue and the state are undefined again afterwards. *)
Theorem dispatch_of_generated_actions
    (func : ScriptFunction ApplicationState DB) db args generator
    finalizeAction getState action shadowing G :
  func (Some getState) db args = RGenerator generator ->
  actionQueue G = None ->
  state G = None ->
  createScriptDispatchMiddleware finalizeAction getState
    (fun _ G0 => wrapScriptFunction func (state G0) db shadowing args G0) action G
  = (gen_return generator,
     (if shadowing then []
      else gen_actions generator
           ++ match finalizeAction with
              | Some finalize =>
                  if (0 <? length (gen_actions generator))%nat then [finalize action] else []
              | None => []
              end),
     G).
Proof.
  intros Hcall Hqueue Hstate. unfold createScriptDispatchMiddleware, wrapScriptFunction.
  cbn [state set_state set_actionQueue]. rewrite Hcall.
  destruct shadowing.
  - rewrite ScriptFacts.queueGeneratedActions_shadowing. simpl.
    destruct G; simpl in *; subst. by destruct finalizeAction.
  - erewrite ScriptFacts.queueGeneratedActions_queues by reflexivity. simpl.
    destruct G; simpl in *; subst. done.
Qed.

(** ** Registered script functions *)

Section Verify.
Context (inherited : string -> bool).

(** X20. Once a function is registered under a name, the script method
    of that name verifies, with no diagnostic; registering leaves every
    other name as it was. *)
Theorem verify_after_register method func G :
  VerifyRegisteredScriptMethod inherited method (RegisterScriptFunction (Name method) func G)
  = (true, RegisterScriptFunction (Name method) func G)
  /\ forall other, other <> Name method ->
       registeredFunctions (RegisterScriptFunction (Name method) func G) !! other
       = registeredFunctions G !! other.
Proof.
  split.
  - unfold VerifyRegisteredScriptMethod, RegisterScriptFunction. simpl.
    rewrite lookup_insert_eq. rewrite bool_decide_eq_true_2 by eauto. done.
  - intros other Hother. simpl. by rewrite lookup_insert_ne.
Qed.

(** X21. After [ClearRegisteredScriptFunctions] no function is
    registered: a script method verifies only if its name is one every
    object inherits, and otherwise the check fails and writes exactly one
    line to the console, which names the method. *)
Theorem verify_after_clear method G :
  registeredFunctions (ClearRegisteredScriptFunctions G) = ∅
  /\ VerifyRegisteredScriptMethod inherited method (ClearRegisteredScriptFunctions G)
     = if inherited (Name method) then (true, ClearRegisteredScriptFunctions G)
       else (false,
             console_write ("Script method " +:+ Name method
                            +:+ " is used in this Articy Database but is not registered in code!")
               (ClearRegisteredScriptFunctions G)).
Proof.
  split; [done |]. unfold VerifyRegisteredScriptMethod. simpl.
  rewrite lookup_empty. rewrite bool_decide_eq_false_2 by (intros [? ?]; done). done.
Qed.
End Verify.

(** ** Feature handlers *)

(** X22. Registering a handler puts it at the end of the list of its
    feature, after the handlers registered before, and leaves the lists of
    the other features alone. *)
Theorem RegisterFeatureExecutionHandler_appends name
    (handler : FeatureExecutionHandler Node State DB) G :
  featureHandlers (RegisterFeatureExecutionHandler name handler G) !! name
  = Some (default [] (featureHandlers G !! name) ++ [handler])
  /\ forall other, other <> name ->
       featureHandlers (RegisterFeatureExecutionHandler name handler G) !! other
       = featureHandlers G !! other.
Proof.
  unfold RegisterFeatureExecutionHandler.
  destruct (featureHandlers G !! name) as [handlers |] eqn:Hname; simpl.
  - rewrite lookup_insert_eq. split; [done |]. intros other Hother.
    by rewrite lookup_insert_ne.
  - rewrite lookup_insert_eq. split; [done |]. intros other Hother.
    by rewrite lookup_insert_ne.
Qed.

Lemma queued_step_frame (r : ScriptReturn) G :
  let G' := match r with
            | RGenerator generator => (queueGeneratedActions generator false G).2
            | _ => G
            end in
  featureHandlers G' = featureHandlers G /\ invoked G' = invoked G.
Proof.
  destruct r as [v | | generator]; simpl; try done.
  destruct (ScriptFacts.queueGeneratedActions_frame generator false G) as (? & ? & ?). done.
Qed.

Lemma runHandlers_calls key data handlers :
  forall position node st G,
    let G' := runHandlers node_db key data handlers position node st G in
    featureHandlers G' = featureHandlers G
    /\ invoked G' = invoked G ++ ((fun i => (key, i)) <$> seq position (length handlers)).
Proof.
  induction handlers as [| handler rest IH]; intros position node st G; simpl.
  - by rewrite app_nil_r.
  - match goal with |- context [runHandlers _ _ _ _ _ _ _ ?G1] =>
      destruct (IH (S position) node st G1) as [HF HI] end.
    simpl in *. rewrite HF, HI.
    destruct (queued_step_frame (handler (node_db node) data node st)
                (record_call key position G)) as [HF1 HI1].
    simpl in *. rewrite HF1, HI1. split; [done |]. by rewrite <- app_assoc.
Qed.

Lemma runFeatures_calls features :
  forall node st G,
    Forall (fun entry => is_Some (featureHandlers G !! entry.1)) features ->
    invoked (runFeatures node_db features node st G)
    = invoked G
      ++ flat_map (fun entry =>
                     (fun i => (entry.1, i))
                     <$> seq 0 (length (default [] (featureHandlers G !! entry.1))))
           features.
Proof.
  induction features as [| [key data] rest IH]; intros node st G Hall; simpl.
  - by rewrite app_nil_r.
  - apply Forall_cons in Hall as [[handlers Hkey] Hrest]. simpl in Hkey.
    rewrite Hkey. simpl.
    destruct (runHandlers_calls key data handlers 0 node st G) as [HF HI].
    simpl in *. rewrite IH.
    + rewrite HI, HF, <- app_assoc. done.
    + by rewrite HF.
Qed.

(** X23. When every feature of the node's template has handlers,
    [OnNodeExecution] calls all of them, once each: feature by feature in
    the order the template enumerates them and, within a feature, in the
    order the handlers were registered. *)
Theorem OnNodeExecution_calls_every_handler node (st : State) G features :
  template node = Some features ->
  Forall (fun entry => is_Some (featureHandlers G !! entry.1)) features ->
  invoked (OnNodeExecution node_db node st G)
  = invoked G
    ++ flat_map (fun entry =>
                   (fun i => (entry.1, i))
                   <$> seq 0 (length (default [] (featureHandlers G !! entry.1))))
         features.
Proof.
  intros Htemplate Hall. unfold OnNodeExecution. rewrite Htemplate.
  by apply runFeatures_calls.
Qed.

(** X24. After [ClearRegisteredFeatureHandlers] the execution of a node
    runs no handler and changes nothing, whatever template the node has. *)
Theorem OnNodeExecution_after_clear node (st : State) G :
  OnNodeExecution node_db node st (ClearRegisteredFeatureHandlers G)
  = ClearRegisteredFeatureHandlers G.
Proof.
  unfold OnNodeExecution. destruct (template node) as [[| [key data] rest] |]; try done.
Qed.

End Extras.
End ScriptExtras.

(** * More properties of iterator.ts *)
Module IteratorExtras.
Import Iterator.

Section Extras.
Context {Node : Type} `{BaseFlowNode Node} {ApplicationState : Type}.
Context (db : Database Node).

Implicit Types w : World Node ApplicationState.
Implicit Types state : AdvancedFlowState Node.
Implicit Types iter : FlowState.
Implicit Types config : AdvancedIterationConfig Node.
Implicit Types branch : FlowBranch Node.
Implicit Types found : list (FlowBranch Node).
Implicit Types node : Node.

(** ** The shape of what the branch search returns *)

Lemma numbered_app index found more :
  numbered index (found ++ more)
  <-> numbered index found /\ numbered (index + Z.of_nat (length found)) more.
Proof.
  revert index. induction found as [| branch rest IH]; intros index; simpl.
  - rewrite Z.add_0_r. tauto.
  - rewrite IH. replace (index + 1 + Z.of_nat (length rest))
      with (index + Z.pos (Pos.of_succ_nat (length rest))) by lia. tauto.
Qed.

Lemma numbered_lookup index found (k : nat) branch :
  numbered index found -> found !! k = Some branch ->
  Iterator.index branch = index + Z.of_nat k.
Proof.
  revert index k. induction found as [| first rest IH]; intros index k Hnum Hk; [done |].
  destruct Hnum as [Hfirst Hrest]. destruct k as [| k]; simpl in Hk.
  - injection Hk as <-. lia.
  - rewrite (IH _ _ Hrest Hk). lia.
Qed.

Lemma numbered_last index found branch :
  numbered index found -> last found = Some branch ->
  Iterator.index branch + 1 = index + Z.of_nat (length found).
Proof.
  intros Hnum Hlast. rewrite last_lookup in Hlast.
  rewrite (numbered_lookup _ _ _ _ Hnum Hlast).
  destruct found; [done |]. simpl length. lia.
Qed.

Section Shape.
Context (config : AdvancedIterationConfig Node) (seen : VisitSet).

Local Abbreviation unlimited := (Forall (fun node => visitLimited seen node = false)).

Local Abbreviation finishing recur :=
  (forall w iter forked index direction node found iter' w' (base middle : list Node),
     recur w iter forked index direction node = Some (found, iter', w') ->
     path forked = base ++ middle ->
     unlimited middle ->
     Forall (finished config seen base) found).

Lemma forkLoop_finished recur (Hrecur : finishing recur) todo :
  forall i w iter branch index node result found iter' w' (base middle : list Node),
    forkLoop recur todo i w iter branch index node result = Some (found, iter', w') ->
    path branch = base ++ middle ->
    unlimited middle ->
    Forall (finished config seen base) result ->
    Forall (finished config seen base) found.
Proof.
  induction todo as [| todo IH];
    intros i w iter branch index node result found iter' w' base middle;
    simpl; intros Hrun Hpath Hfree Hres.
  - by inversion Hrun; subst.
  - destruct (recur w iter _ index i node) as [[[sub iter1] w1] |] eqn:Hcall; [| done].
    eapply Hrecur in Hcall; [| exact Hpath | done].
    eapply IH in Hrun; eauto. by apply Forall_app.
Qed.

Lemma whileLoop_finished recur (Hrecur : finishing recur) fuel :
  forall w caller iter node branch index direction count found iter' w'
         (base middle : list Node),
    whileLoop db config seen recur fuel w caller iter node branch index direction count
    = Some (found, iter', w') ->
    path branch = base ++ middle ->
    unlimited middle ->
    Forall (finished config seen base) found.
Proof.
  induction fuel as [| fuel IH];
    intros w caller iter node branch index direction count found iter' w' base middle;
    rewrite IteratorFacts.whileLoop_unfold; intros Hrun Hpath Hfree.
  - destruct ((count =? 1) || (0 <=? direction)); [done |].
    destruct (forkLoop _ _ _ _ _ _ _ _ _) as [[[result iter1] w1] |] eqn:Hfork; [| done].
    inversion Hrun; subst. eapply forkLoop_finished in Hfork; eauto.
  - destruct ((count =? 1) || (0 <=? direction)).
    + destruct (shadowed node iter w) as [iter1 w1].
      destruct (basicNextFlowState db iter1 direction _) as [[iter2 arrival] w2].
      destruct arrival as [arrival |]; [| by inversion Hrun; subst].
      unfold arrived in Hrun.
      destruct (visitLimited seen arrival) eqn:Hlim; [by inversion Hrun; subst |].
      assert (path (push arrival branch) = base ++ (middle ++ [arrival])) as Hpath'
        by (simpl; rewrite Hpath; by rewrite <- app_assoc).
      assert (unlimited (middle ++ [arrival])) as Hfree'
        by (apply Forall_app; split; [done | by constructor]).
      destruct (shouldStopAt arrival (stopAtTypes config)) eqn:Hstop;
        [| by eapply IH; eauto].
      assert (finished config seen base (push arrival branch)) as Hdone.
      { exists middle, arrival. rewrite Hpath'. done. }
      destruct (customStopHandler config) as [handler |];
        [| by inversion Hrun; subst; repeat constructor].
      destruct (handler arrival seen) as [[| |] | | value].
      * by inversion Hrun; subst; repeat constructor.
      * destruct (recur w2 iter2 _ (index + 1) 0 arrival) as [[[rest iter3] w3] |] eqn:Hcall;
          [| done].
        inversion Hrun; subst.
        eapply Hrecur in Hcall; [| exact Hpath' | done]. by constructor.
      * by eapply IH; eauto.
      * by inversion Hrun; subst; repeat constructor.
      * by inversion Hrun; subst; repeat constructor.
    + destruct (forkLoop _ _ _ _ _ _ _ _ _) as [[[result iter1] w1] |] eqn:Hfork; [| done].
      inversion Hrun; subst. eapply forkLoop_finished in Hfork; eauto.
Qed.

Lemma collectBranches_finished fuel :
  forall w iter given index direction start found iter' w' (base middle : list Node),
    collectBranches db config seen fuel w iter given index direction start
    = Some (found, iter', w') ->
    path (default (mkFlowBranch index []) given) = base ++ middle ->
    unlimited middle ->
    Forall (finished config seen base) found.
Proof.
  induction fuel as [| fuel IH];
    intros w iter given index direction start found iter' w' base middle; [done |].
  rewrite IteratorFacts.collectBranches_unfold. intros Hrun Hpath Hfree.
  destruct (present (fs_id iter)) as [id |]; [| by inversion Hrun; subst].
  destruct (match start with Some node => Some node | None => getObject db id end)
    as [node |]; [| by inversion Hrun; subst].
  eapply whileLoop_finished in Hrun; eauto.
Qed.

Local Abbreviation numbering recur :=
  (forall w iter forked index direction node found iter' w',
     recur w iter forked index direction node = Some (found, iter', w') ->
     Iterator.index forked = index ->
     numbered index found).

Lemma forkLoop_numbered recur (Hrecur : numbering recur) todo :
  forall i w iter branch index node result found iter' w' first,
    forkLoop recur todo i w iter branch index node result = Some (found, iter', w') ->
    numbered first result ->
    index = first + Z.of_nat (length result) ->
    numbered first found.
Proof.
  induction todo as [| todo IH];
    intros i w iter branch index node result found iter' w' first;
    simpl; intros Hrun Hnum Hindex.
  - by inversion Hrun; subst.
  - destruct (recur w iter _ index i node) as [[[sub iter1] w1] |] eqn:Hcall; [| done].
    eapply Hrecur in Hcall; [| done].
    assert (numbered first (result ++ sub)) as Hnum'.
    { apply numbered_app. split; [done |]. by rewrite <- Hindex. }
    eapply IH in Hrun; eauto.
    destruct (last (result ++ sub)) as [final |] eqn:Hlast.
    + apply (numbered_last _ _ _ Hnum') in Hlast. lia.
    + apply last_None in Hlast. rewrite Hlast in *.
      apply app_eq_nil in Hlast as [-> ->]. simpl in *. lia.
Qed.

Lemma whileLoop_numbered recur (Hrecur : numbering recur) fuel :
  forall w caller iter node branch index direction count found iter' w',
    whileLoop db config seen recur fuel w caller iter node branch index direction count
    = Some (found, iter', w') ->
    Iterator.index branch = index ->
    numbered index found.
Proof.
  induction fuel as [| fuel IH];
    intros w caller iter node branch index direction count found iter' w';
    rewrite IteratorFacts.whileLoop_unfold; intros Hrun Hindex.
  - destruct ((count =? 1) || (0 <=? direction)); [done |].
    destruct (forkLoop _ _ _ _ _ _ _ _ _) as [[[result iter1] w1] |] eqn:Hfork; [| done].
    inversion Hrun; subst.
    eapply forkLoop_numbered in Hfork; eauto; simpl; [done | lia].
  - destruct ((count =? 1) || (0 <=? direction)).
    + destruct (shadowed node iter w) as [iter1 w1].
      destruct (basicNextFlowState db iter1 direction _) as [[iter2 arrival] w2].
      destruct arrival as [arrival |]; [| by inversion Hrun; subst].
      unfold arrived in Hrun.
      destruct (visitLimited seen arrival); [by inversion Hrun; subst |].
      assert (Iterator.index (push arrival branch) = index) as Hindex' by done.
      destruct (shouldStopAt arrival (stopAtTypes config)); [| by eapply IH; eauto].
      destruct (customStopHandler config) as [handler |];
        [| by inversion Hrun; subst].
      destruct (handler arrival seen) as [[| |] | | value].
      * by inversion Hrun; subst.
      * destruct (recur w2 iter2 _ (index + 1) 0 arrival) as [[[rest iter3] w3] |] eqn:Hcall;
          [| done].
        inversion Hrun; subst.
        eapply Hrecur in Hcall; [| done]. by split.
      * by eapply IH; eauto.
      * by inversion Hrun; subst.
      * by inversion Hrun; subst.
    + destruct (forkLoop _ _ _ _ _ _ _ _ _) as [[[result iter1] w1] |] eqn:Hfork; [| done].
      inversion Hrun; subst.
      eapply forkLoop_numbered in Hfork; eauto; simpl; [done | lia].
Qed.

Lemma collectBranches_numbered fuel :
  forall w iter given index direction start found iter' w',
    collectBranches db config seen fuel w iter given index direction start
    = Some (found, iter', w') ->
    Iterator.index (default (mkFlowBranch index []) given) = index ->
    numbered index found.
Proof.
  induction fuel as [| fuel IH];
    intros w iter given index direction start found iter' w'; [done |].
  rewrite IteratorFacts.collectBranches_unfold. intros Hrun Hindex.
  destruct (present (fs_id iter)) as [id |]; [| by inversion Hrun; subst].
  destruct (match start with Some node => Some node | None => getObject db id end)
    as [node |]; [| by inversion Hrun; subst].
  eapply whileLoop_numbered in Hrun; eauto.
Qed.

(** X1. The branches [collectBranches] returns are numbered in the order
    of the list, without gaps, from the index the call was given: the
    branch at position k carries index + k. (A branch handed in must carry
    that index, as every call the code itself makes does.) *)
Theorem collectBranches_indices_are_positions
    fuel w iter given index direction start found iter' w' (k : nat) branch :
  collectBranches db config seen fuel w iter given index direction start
  = Some (found, iter', w') ->
  (forall handed, given = Some handed -> Iterator.index handed = index) ->
  found !! k = Some branch ->
  Iterator.index branch = index + Z.of_nat k.
Proof.
  intros Hrun Hgiven Hk. eapply numbered_lookup; [| exact Hk].
  eapply collectBranches_numbered; [exact Hrun |].
  destruct given as [handed |]; simpl; auto.
Qed.

Lemma collectBranches_ends_at_stops
    fuel w iter given index direction start found iter' w' :
  collectBranches db config seen fuel w iter given index direction start
  = Some (found, iter', w') ->
  Forall (fun branch =>
            exists middle dest,
              path branch = path (default (mkFlowBranch index []) given) ++ middle ++ [dest]
              /\ destination branch = Some dest
              /\ shouldStopAt dest (stopAtTypes config) = true
              /\ Forall (fun node => visitLimited seen node = false) (middle ++ [dest]))
         found.
Proof.
  intros Hrun.
  eapply (collectBranches_finished fuel _ _ _ _ _ _ _ _ _
            (path (default (mkFlowBranch index []) given)) []) in Hrun;
    [| by rewrite app_nil_r | done].
  eapply Forall_impl; [exact Hrun |].
  intros branch (middle & dest & Hpath & Hfree & Hstop).
  exists middle, dest. repeat split; try done.
  unfold destination. rewrite Hpath, !app_assoc. apply last_snoc.
Qed.

(** X2. Every branch [collectBranches] returns is finished: its path is
    the path of the branch handed in (empty when none is) followed by at
    least one node, its destination matches the stop set, and no node the
    search added is one the visit limitation refuses. *)
Theorem collectBranches_returns_finished_branches
    fuel w iter given index direction start found iter' w' :
  collectBranches db config seen fuel w iter given index direction start
  = Some (found, iter', w') ->
  Forall (fun branch =>
            exists middle dest,
              path branch = path (default (mkFlowBranch index []) given) ++ middle ++ [dest]
              /\ destination branch = Some dest
              /\ shouldStopAt dest (stopAtTypes config) = true
              /\ Forall (fun node => visitLimited seen node = false) (middle ++ [dest]))
         found.
Proof. apply collectBranches_ends_at_stops. Qed.
End Shape.

(** ** Dead ends *)

(** X3. A flow state without an id (null or the empty string), or whose id
    the database does not resolve, is a dead traversal: [collectBranches]
    returns no branch and changes neither the world nor the flow state. *)
Theorem collectBranches_dead_traversal config seen fuel w iter given index direction :
  (present (fs_id iter) = None
   \/ exists id, present (fs_id iter) = Some id /\ getObject db id = None) ->
  collectBranches db config seen (S fuel) w iter given index direction None
  = Some ([], iter, w).
Proof.
  intros [Hid | (id & Hid & Hnode)]; rewrite IteratorFacts.collectBranches_unfold, Hid.
  - done.
  - by rewrite Hnode.
Qed.

Lemma collectBranches_found_has_id config seen fuel w iter given index direction start
    found iter' w' :
  collectBranches db config seen fuel w iter given index direction start
  = Some (found, iter', w') ->
  found <> [] -> is_Some (present (fs_id iter)).
Proof.
  destruct fuel as [| fuel]; [done |]. rewrite IteratorFacts.collectBranches_unfold.
  destruct (present (fs_id iter)); [by eauto |]. by intros [= <- <- <-].
Qed.

(** ** Cached branches and the commit step *)

Lemma find_numbered index found (k : nat) branch :
  numbered index found -> found !! k = Some branch ->
  List.find (fun x => Iterator.index x =? index + Z.of_nat k) found = Some branch.
Proof.
  revert index k. induction found as [| first rest IH]; intros index k Hnum Hk; [done |].
  destruct Hnum as [Hfirst Hrest]. simpl. destruct k as [| k]; simpl in Hk.
  - injection Hk as <-. rewrite Hfirst. by rewrite Z.add_0_r, Z.eqb_refl.
  - rewrite Hfirst. destruct (index =? index + Z.of_nat (S k)) eqn:Heq; [apply Z.eqb_eq in Heq; lia |].
    rewrite <- (IH (index + 1) k Hrest Hk).
    replace (index + Z.of_nat (S k)) with (index + 1 + Z.of_nat k) by lia. done.
Qed.

(** X4. On a state whose branches come from [refreshBranches], every
    index from 0 up to the number of cached branches names a branch: the
    call with that index follows the branch at that position. It neither
    throws nor returns the state unchanged; it returns the destination of
    that branch (unless the fuel given to the next refresh runs out). *)
Theorem refreshed_branch_index_commits
    config fuel state w state' w' branchIndex fuel1 w1 :
  refreshBranches db config fuel state w = Some (state', w') ->
  0 <= branchIndex < Z.of_nat (length (branches state')) ->
  exists branch curr,
    branches state' !! Z.to_nat branchIndex = Some branch
    /\ destination branch = Some curr
    /\ (advancedNextFlowState db config fuel1 state' branchIndex w1 = OutOfFuel
        \/ exists after w2,
             advancedNextFlowState db config fuel1 state' branchIndex w1
             = Returns (after, Some curr, w2)).
Proof.
  unfold refreshBranches.
  destruct (collectBranches _ _ _ _ _ _ _ _ _ _) as [[[found iter'] w0] |] eqn:Hrun; [| done].
  intros [= <- <-] Hrange. simpl in Hrange.
  destruct (lookup_lt_is_Some_2 found (Z.to_nat branchIndex)) as [branch Hbranch]; [lia |].
  pose proof (collectBranches_numbered config (visits state) _ _ _ _ _ _ _ _ _ _ Hrun eq_refl)
    as Hnum.
  pose proof (collectBranches_ends_at_stops config (visits state)
                _ _ _ _ _ _ _ _ _ _ Hrun) as Hfin.
  rewrite Forall_forall in Hfin.
  destruct (Hfin branch) as (middle & curr & Hpath & Hdest & _ & _).
  { apply list_elem_of_lookup. eauto. }
  assert (is_Some (present (fs_id (flow state)))) as [id Hid].
  { eapply collectBranches_found_has_id in Hrun; [exact Hrun |].
    intros ->. by rewrite lookup_nil in Hbranch. }
  pose proof (find_numbered 0 found _ branch Hnum Hbranch) as Hfind.
  rewrite Z.add_0_l, Z2Nat.id in Hfind by lia.
  exists branch, curr. split; [exact Hbranch |]. split; [exact Hdest |].
  unfold advancedNextFlowState. simpl.
  destruct (branchIndex <? 0) eqn:Hneg; [apply Z.ltb_lt in Hneg; lia |].
  destruct (Z.of_nat (length found) <=? branchIndex) eqn:Hlen; [apply Z.leb_le in Hlen; lia |].
  simpl.
  destruct (flow state) as [sid slast svars sshadow] eqn:Hflow. simpl in *.
  rewrite Hid, Hfind.
  destruct (executePath db _ _ _ _ _ _) as [[[vars hasCloned] seen] w2].
  unfold destination in Hdest. rewrite last_lookup in Hdest.
  replace (length (path branch) - 1)%nat with (Nat.pred (length (path branch))) by lia.
  rewrite Hdest.
  unfold refreshBranches.
  match goal with |- context [collectBranches ?a ?b ?c ?d ?e ?f ?g ?h ?i ?j] =>
    destruct (collectBranches a b c d e f g h i j) as [[[found' iter''] w3] |]
  end; [right; by eexists _, _ | by left].
Qed.

(** What [advancedNextFlowState] does when it follows a branch: the
    state it returns is built from the walk over the path. *)
Lemma advancedNextFlowState_follows config fuel state branchIndex w state' curr w' :
  advancedNextFlowState db config fuel state branchIndex w = Returns (state', Some curr, w') ->
  exists branch id walked,
    List.find (fun x => Iterator.index x =? branchIndex) (branches state) = Some branch
    /\ present (fs_id (flow state)) = Some id
    /\ walked = executePath db (path branch) state (variables (flow state)) false
                  (visits state) w
    /\ last (path branch) = Some curr
    /\ flow state' = {| fs_id := Some (node_Id curr);
                        fs_last := node_Id <$>
                                   (if (1 <? length (path branch))%nat
                                    then path branch !! (length (path branch) - 2)%nat
                                    else getObject db id);
                        variables := walked.1.1.1;
                        shadowing := None |}
    /\ visits state' = walked.1.2
    /\ turn state' = turn state + 1
    /\ refreshBranches db config fuel
         {| flow := {| fs_id := Some (node_Id curr);
                       fs_last := node_Id <$>
                                  (if (1 <? length (path branch))%nat
                                   then path branch !! (length (path branch) - 2)%nat
                                   else getObject db id);
                       variables := walked.1.1.1;
                       shadowing := None |};
            branches := [];
            visits := walked.1.2;
            turn := turn state + 1 |} walked.2
       = Some (state', w').
Proof.
  unfold advancedNextFlowState.
  destruct ((branchIndex <? 0) || _); [done |].
  destruct (present (fs_id (flow state))) as [id |]; [| done].
  destruct (List.find _ (branches state)) as [branch |]; [| done].
  destruct (executePath db _ _ _ _ _ _) as [[[vars hasCloned] seen] w1] eqn:Hwalk.
  destruct (path branch !! _) as [dest |] eqn:Hdest; [| done].
  destruct (refreshBranches _ _ _ _ _) as [[refreshed w2] |] eqn:Hrefresh; [| done].
  intros [= <- <- <-].
  pose proof Hrefresh as Hfields.
  apply IteratorFacts.refreshBranches_fields in Hfields as (Hflow & Hvisits & Hturn).
  exists branch, id, (vars, hasCloned, seen, w1). simpl in *.
  repeat split; try done.
  rewrite last_lookup. rewrite <- Hdest. f_equal. lia.
Qed.

(** X5. Where a commit lands. The state returned by a call that follows a
    branch is at the destination of that branch and has no shadowing flag.
    Its last id is the id of the node before the destination on the path
    or, when the path has a single node, the id of the node the state was
    at (none when the database does not resolve it). *)
Theorem advancedNextFlowState_commit_position
    config fuel state branchIndex w state' curr w' :
  advancedNextFlowState db config fuel state branchIndex w = Returns (state', Some curr, w') ->
  exists branch id,
    List.find (fun x => Iterator.index x =? branchIndex) (branches state) = Some branch
    /\ present (fs_id (flow state)) = Some id
    /\ destination branch = Some curr
    /\ fs_id (flow state') = Some (node_Id curr)
    /\ shadowing (flow state') = None
    /\ ((path branch = [curr] /\ fs_last (flow state') = node_Id <$> getObject db id)
        \/ exists front previous,
             path branch = front ++ [previous; curr]
             /\ fs_last (flow state') = Some (node_Id previous)).
Proof.
  intros Hcall.
  apply advancedNextFlowState_follows in Hcall
    as (branch & id & walked & Hfind & Hid & _ & Hlast & Hflow & _).
  exists branch, id. rewrite Hflow. simpl. repeat split; try done.
  apply last_Some in Hlast as [front Hpath].
  destruct front as [| first front _] using rev_ind.
  - left. rewrite Hpath. done.
  - right. exists front, first. rewrite Hpath, <- app_assoc. split; [done |].
    rewrite !length_app. simpl.
    destruct (1 <? length front + 2)%nat eqn:Hlong; [| apply Nat.ltb_ge in Hlong; lia].
    replace (length front + 2 - 2)%nat with (length front) by lia.
    by rewrite list_lookup_middle.
Qed.

(** The visit counts after the walk over a path. *)
Lemma executePath_counts todo :
  forall state vars hasCloned seen w id,
    let seen' := (executePath db todo state vars hasCloned seen w).1.2 in
    default 0 (counts seen' !! id)
    = default 0 (counts seen !! id)
      + Z.of_nat (length (List.filter (fun node => String.eqb (node_Id node) id) todo))
    /\ (Forall (fun node => node_Id node <> id) todo ->
        counts seen' !! id = counts seen !! id
        /\ indicies seen' !! id = indicies seen !! id).
Proof.
  induction todo as [| step todo IH]; intros state vars hasCloned seen w id; simpl.
  - split; [lia | done].
  - destruct (negb hasCloned && needsShadow step); simpl;
      match goal with |- context [executePath db todo state ?v ?h ?s ?w1] =>
        destruct (IH state v h s w1 id) as [Hcount Hother] end;
      simpl in *; rewrite Hcount;
      (split;
       [ destruct (String.eqb_spec (node_Id step) id) as [-> | Hne]; simpl;
         [ rewrite lookup_insert_eq; simpl; unfold Id in *; lia
         | rewrite lookup_insert_ne by done; unfold Id in *; lia ]
       | intros [Hstep Hrest]%Forall_cons; destruct (Hother Hrest) as [-> ->];
         by rewrite !lookup_insert_ne ]).
Qed.

(** X6. A commit raises the visit count of a node by the number of times
    the followed path steps through it (an absent count reads as 0), and
    leaves the count and the recorded turn of every node that is not on
    the path as they were. *)
Theorem advancedNextFlowState_counts_visits
    config fuel state branchIndex w state' curr w' :
  advancedNextFlowState db config fuel state branchIndex w = Returns (state', Some curr, w') ->
  exists branch,
    List.find (fun x => Iterator.index x =? branchIndex) (branches state) = Some branch
    /\ forall id,
         default 0 (counts (visits state') !! id)
         = default 0 (counts (visits state) !! id)
           + Z.of_nat (length (List.filter (fun node => String.eqb (node_Id node) id)
                                 (path branch)))
         /\ (Forall (fun node => node_Id node <> id) (path branch) ->
             counts (visits state') !! id = counts (visits state) !! id
             /\ indicies (visits state') !! id = indicies (visits state) !! id).
Proof.
  intros Hcall.
  apply advancedNextFlowState_follows in Hcall
    as (branch & id0 & walked & Hfind & _ & -> & _ & _ & Hvisits & _).
  exists branch. split; [done |]. intros id. rewrite Hvisits.
  apply executePath_counts.
Qed.

(** The store the walk over a path ends with: the first node that needs a
    shadow makes one clone, and no later node makes another. *)
Lemma executePath_variables todo :
  forall state vars hasCloned seen w,
    let walked := executePath db todo state vars hasCloned seen w in
    let cloned := negb hasCloned && existsb needsShadow todo in
    walked.1.1.1 = (if cloned then length (stores w) else vars)
    /\ clones walked.2 = (clones w + (if cloned then 1 else 0))%nat
    /\ length (stores walked.2) = (length (stores w) + (if cloned then 1 else 0))%nat.
Proof.
  induction todo as [| step todo IH]; intros state vars hasCloned seen w; simpl.
  - rewrite andb_false_r. simpl. lia.
  - destruct hasCloned; simpl.
    + match goal with |- context [executePath db todo state ?v ?h ?s ?w1] =>
        destruct (IH state v h s w1) as (Hvars & Hclones & Hlen) end.
      simpl in *. rewrite Hvars, Hclones, Hlen, length_insert. lia.
    + destruct (needsShadow step); simpl;
        match goal with |- context [executePath db todo state ?v ?h ?s ?w1] =>
          destruct (IH state v h s w1) as (Hvars & Hclones & Hlen) end;
        simpl in *; rewrite Hvars, Hclones, Hlen, length_insert;
        [rewrite length_app; simpl; lia |].
      destruct (existsb needsShadow todo); lia.
Qed.

(** X7. A commit clones the variable store at most once. When no node of
    the followed path needs a shadow, the state returned keeps the store
    object of the state given; otherwise it owns one new store, the clone
    made at the first such node. *)
Theorem advancedNextFlowState_clones_once
    config fuel state branchIndex w state' curr w' :
  advancedNextFlowState db config fuel state branchIndex w = Returns (state', Some curr, w') ->
  exists branch,
    List.find (fun x => Iterator.index x =? branchIndex) (branches state) = Some branch
    /\ variables (flow state')
       = (if existsb needsShadow (path branch)
          then length (stores w)
          else variables (flow state))
    /\ let walked := executePath db (path branch) state (variables (flow state)) false
                       (visits state) w in
       clones walked.2
       = (clones w + (if existsb needsShadow (path branch) then 1 else 0))%nat.
Proof.
  intros Hcall.
  apply advancedNextFlowState_follows in Hcall
    as (branch & id0 & walked & Hfind & _ & -> & _ & Hflow & _).
  exists branch. split; [done |]. rewrite Hflow. simpl.
  destruct (executePath_variables (path branch) state (variables (flow state)) false
              (visits state) w) as (Hvars & Hclones & _).
  simpl in *. by rewrite Hvars, Hclones.
Qed.

(** ** What a commit leaves of the world it was given *)

Section Isolation.
(** The database resolves, under its id, every node that [next] leads to. *)
Hypothesis db_resolves :
  forall node vars branchIndex last_id flag target id,
    (next node vars branchIndex last_id flag).2 = Some target ->
    present (Some (node_Id target)) = Some id ->
    getObject db id = Some target.
(** A node that reports needsShadow() = false leaves the variables alone,
    when the walk steps over it and when it is executed. *)
Hypothesis next_quiet :
  forall node vars branchIndex last_id flag,
    needsShadow node = false -> (next node vars branchIndex last_id flag).1 = vars.
Hypothesis execute_quiet :
  forall node vars, needsShadow node = false -> execute node vars = vars.

Lemma collectBranches_keeps_stores config seen fuel w iter given index direction found iter' w' :
  collectBranches db config seen fuel w iter given index direction None
  = Some (found, iter', w') ->
  keeps_stores w w'.
Proof.
  intros Hrun.
  eapply (IteratorFacts.collectBranches_rule db config seen (keeps_stores w)
            (fun iter node =>
               forall id, present (fs_id iter) = Some id -> getObject db id = Some node)
            (fun _ => True)) in Hrun as (Hkeeps & _ & _); try done.
  - intros iter0 id node Hid Hnode id' Hid'. congruence.
  - intros iter0 iter1 node Hsame HK id. rewrite Hsame. apply HK.
  - intros w2 iter0 node direction0 Hkeeps HK.
    assert (keeps_stores w (shadowed node iter0 w2).2
            /\ fs_id (shadowed node iter0 w2).1 = fs_id iter0
            /\ (needsShadow node = true ->
                (length (stores w) <= variables (shadowed node iter0 w2).1)%nat))
      as (Hkeeps1 & Hid1 & Hfresh).
    { unfold shadowed. destruct (needsShadow node); simpl; [| done].
      split; [| split; [done |]].
      - eapply IteratorFacts.keeps_stores_trans; [exact Hkeeps |].
        apply (IteratorFacts.alloc_keeps _ (count_clone w2)).
      - intros _. by destruct Hkeeps. }
    destruct (shadowed node iter0 w2) as [iter1 w3]. simpl in *.
    unfold basicNextFlowState. rewrite Hid1.
    destruct (present (fs_id iter0)) as [id |] eqn:Hid; [| done].
    rewrite (HK id eq_refl).
    destruct (next node _ _ _ _) as [content target] eqn:Hnext.
    assert (keeps_stores w (write (variables iter1) content (record_step node w3)))
      as Hkeeps2.
    { apply IteratorFacts.write_keeps; [done |].
      destruct (needsShadow node) eqn:Hshadow; [left; by apply Hfresh |].
      right. pose proof (next_quiet node (read (record_step node w3) (variables iter1))
                           direction0 (fs_last iter1)
                           (default false (shadowing iter1)) Hshadow) as Hsame.
      rewrite Hnext in Hsame. done. }
    destruct target as [target |].
    + split; [done |]. intros arrival [= <-] id' Hid'. simpl in Hid'.
      eapply db_resolves; [| exact Hid']. by rewrite Hnext.
    + split; [| done]. eapply IteratorFacts.keeps_stores_trans; [exact Hkeeps2 |].
      apply IteratorFacts.alloc_keeps.
Qed.

Lemma set_script_keeps_stores base G w :
  keeps_stores base w -> keeps_stores base (set_script G w).
Proof. by intros [Hlen Hkeep]. Qed.

Lemma executePath_keeps_stores base todo :
  forall state vars hasCloned seen w,
    keeps_stores base w ->
    (hasCloned = true -> (length (stores base) <= vars)%nat) ->
    keeps_stores base (executePath db todo state vars hasCloned seen w).2.
Proof.
  induction todo as [| step todo IH]; intros state vars hasCloned seen w Hkeeps Hfresh;
    simpl; [done |].
  destruct (negb hasCloned && needsShadow step) eqn:Hclone; simpl.
  - apply IH; [| intros _; by destruct Hkeeps].
    apply set_script_keeps_stores.
    apply IteratorFacts.write_keeps; [| left; by destruct Hkeeps].
    eapply IteratorFacts.keeps_stores_trans; [exact Hkeeps |].
    apply (IteratorFacts.alloc_keeps _ (count_clone w)).
  - apply IH; [| done].
    apply set_script_keeps_stores.
    apply IteratorFacts.write_keeps; [done |].
    destruct hasCloned; [left; by apply Hfresh |].
    simpl in Hclone. right. by rewrite execute_quiet.
Qed.

(** X8. A commit never changes a variable store that existed before the
    call, the store of the state it was given included: whatever
    [advancedNextFlowState] returns, every earlier store still has its
    content, so earlier states stay valid. (For flows whose nodes change
    the variables only when they report needsShadow() = true.) *)
Theorem advancedNextFlowState_keeps_earlier_stores
    config fuel state branchIndex w state' reached w' :
  advancedNextFlowState db config fuel state branchIndex w = Returns (state', reached, w') ->
  keeps_stores w w'.
Proof.
  unfold advancedNextFlowState.
  destruct ((branchIndex <? 0) || _);
    [intros [= <- <- <-]; apply IteratorFacts.keeps_stores_refl |].
  destruct (present (fs_id (flow state))) as [id |];
    [| intros [= <- <- <-]; apply IteratorFacts.keeps_stores_refl].
  destruct (List.find _ (branches state)) as [branch |];
    [| intros [= <- <- <-]; apply IteratorFacts.keeps_stores_refl].
  pose proof (executePath_keeps_stores w (path branch) state (variables (flow state)) false
                (visits state) w (IteratorFacts.keeps_stores_refl w)) as Hwalk.
  destruct (executePath db _ _ _ _ _ _) as [[[vars hasCloned] seen] w1].
  simpl in Hwalk. specialize (Hwalk ltac:(done)).
  destruct (path branch !! _) as [dest |]; [| done].
  unfold refreshBranches.
  destruct (collectBranches _ _ _ _ _ _ _ _ _ _) as [[[found iter'] w2] |] eqn:Hrun; [| done].
  intros [= <- <- <-].
  eapply IteratorFacts.keeps_stores_trans; [exact Hwalk |].
  eapply collectBranches_keeps_stores. exact Hrun.
Qed.
End Isolation.

(** ** Startup *)

(** X9. A start id the database does not resolve yields the null state
    with no node. The call has by then created the variable store of the
    state it discards. *)
Theorem advancedStartupFlowState_unresolved config fuel start w :
  getObject db start = None ->
  advancedStartupFlowState db config (S fuel) start w
  = Returns (NullAdvancedFlowState, None, (alloc (newVariableStore db) w).2).
Proof.
  intros Hstart. unfold advancedStartupFlowState, startupInitial, alloc.
  cbv beta iota zeta. unfold refreshBranches.
  rewrite IteratorFacts.collectBranches_unfold. cbn [fs_id set_shadowing flow].
  destruct (present (Some start)) as [id |] eqn:Hid.
  - assert (id = start) as ->.
    { unfold present in Hid. destruct (String.eqb start ""); congruence. }
    by rewrite !Hstart.
  - by rewrite Hstart.
Qed.

(** X10. When the start node resolves and matches the stop set, startup
    returns it without taking a step: the state is at the start id, has no
    last id and no shadowing flag, owns the store startup created, and has
    turn 0 and no visits. *)
Theorem advancedStartupFlowState_at_stop config fuel start w node state reached w' :
  getObject db start = Some node ->
  shouldStopAt node (stopAtTypes config) = true ->
  advancedStartupFlowState db config fuel start w = Returns (state, reached, w') ->
  reached = Some node
  /\ flow state = {| fs_id := Some start; fs_last := None;
                     variables := length (stores w); shadowing := None |}
  /\ visits state = {| counts := ∅; indicies := ∅ |}
  /\ turn state = 0.
Proof.
  intros Hstart Hstop. unfold advancedStartupFlowState, startupInitial, alloc.
  cbv beta iota zeta.
  destruct (refreshBranches _ _ _ _ _) as [[initial w1] |] eqn:Hrefresh; [| done].
  rewrite Hstart, Hstop. intros [= <- <- <-].
  apply IteratorFacts.refreshBranches_fields in Hrefresh as (-> & -> & ->). done.
Qed.

(** ** Children of a flow state *)

Lemma childrenLoop_bound todo :
  forall i node iter w children,
    let result := childrenLoop todo i node iter w children in
    (length result.1 <= length children + todo)%nat
    /\ length (stores result.2) = length (stores w)
    /\ forall vars : StoreRef,
         vars <> variables iter -> stores result.2 !! vars = stores w !! vars.
Proof.
  induction todo as [| todo IH]; intros i node iter w children; simpl.
  - split; [lia | done].
  - destruct (next node _ _ _ _) as [content child].
    match goal with |- context [childrenLoop todo ?i1 node iter ?w1 ?c1] =>
      destruct (IH i1 node iter w1 c1) as (Hlen & Hstores & Hother) end.
    simpl in *. rewrite Hstores, length_insert. split; [| split; [done |]].
    + destruct child; [rewrite length_app in Hlen; simpl in Hlen |]; lia.
    + intros vars Hvars. rewrite Hother by done. by apply list_lookup_insert_ne.
Qed.

(** X11. [getFlowStateChildren] returns no more children than the node
    reports branches, and none, touching nothing, when the state has no id
    or no node resolves. It runs [next] on the store of the state itself,
    without a clone: no store is created and every other store keeps its
    content. *)
Theorem getFlowStateChildren_bounded iter start w :
  let result := getFlowStateChildren db iter start w in
  match present (fs_id iter) with
  | None => result = ([], w)
  | Some id =>
      match (match start with Some node => Some node | None => getObject db id end) with
      | None => result = ([], w)
      | Some node =>
          (length result.1
           <= Z.to_nat (numBranches node (read w (variables iter)) (fs_last iter)
                          (default false (shadowing iter))))%nat
          /\ length (stores result.2) = length (stores w)
          /\ forall vars : StoreRef,
               vars <> variables iter -> stores result.2 !! vars = stores w !! vars
      end
  end.
Proof.
  unfold getFlowStateChildren.
  destruct (present (fs_id iter)) as [id |]; [| done].
  destruct (match start with Some node => Some node | None => getObject db id end)
    as [node |]; [| done].
  apply (childrenLoop_bound _ 0 node iter w []).
Qed.

(** ** Looking along a branch *)

Lemma pathHasFrom_cons item rest type typeString :
  pathHasFrom (item :: rest) type typeString
  = if matches type (Some typeString) item then Some item
    else pathHasFrom rest type typeString.
Proof.
  cbn [pathHasFrom]. unfold matches. destruct (type item); cbn [negb andb]; [| done].
  destruct (present (Some typeString)) as [name |]; [| done].
  by destruct (node_is item name).
Qed.

Lemma pathHasFrom_first items type typeString node :
  pathHasFrom items type typeString = Some node
  <-> exists before after,
        items = before ++ node :: after
        /\ matches type (Some typeString) node = true
        /\ Forall (fun item => matches type (Some typeString) item = false) before.
Proof.
  induction items as [| item rest IH].
  - simpl. split; [done |]. intros (before & after & Heq & _). by destruct before.
  - rewrite pathHasFrom_cons.
    destruct (matches type (Some typeString) item) eqn:Hitem.
    + split.
      * intros [= <-]. by exists [], rest.
      * intros (before & after & Heq & Hnode & Hbefore).
        destruct before as [| first before]; simpl in Heq; injection Heq as -> ->; [done |].
        apply Forall_cons in Hbefore as [Hfirst _]. congruence.
    + rewrite IH. split.
      * intros (before & after & -> & Hnode & Hbefore).
        exists (item :: before), after. repeat split; try done. by constructor.
      * intros (before & after & Heq & Hnode & Hbefore).
        destruct before as [| first before]; simpl in Heq; injection Heq as -> ->;
          [congruence |].
        apply Forall_cons in Hbefore as [_ Hbefore]. by exists before, after.
Qed.

(** X12. [pathHas] returns the first node of the path that is an instance
    of the class and, when a non-empty type name is given, is of that
    type: it returns a node exactly when the path splits into nodes that
    fail the test, that node, which passes it, and a rest. *)
Theorem pathHas_first_match branch type typeString node :
  pathHas branch type typeString = Some node
  <-> exists before after,
        path branch = before ++ node :: after
        /\ matches type (Some typeString) node = true
        /\ Forall (fun item => matches type (Some typeString) item = false) before.
Proof. apply pathHasFrom_first. Qed.

(** X13. Whatever [destinationAs] finds, [pathHas] finds too, though it
    may stop at an earlier node of the path that passes the same test;
    [destinationAs] answers with the destination exactly when the
    destination passes the test, and with nothing on an empty path. *)
Theorem destinationAs_found_by_pathHas branch type typeString dest :
  destinationAs branch type (Some typeString) = Some dest ->
  destination branch = Some dest
  /\ matches type (Some typeString) dest = true
  /\ exists node,
       pathHas branch type typeString = Some node
       /\ matches type (Some typeString) node = true.
Proof.
  unfold destinationAs.
  destruct (destination branch) as [final |] eqn:Hdest; [| done].
  intros Hfound.
  assert (final = dest /\ matches type (Some typeString) final = true) as [-> Hpass].
  { unfold matches. destruct (type final); cbn [negb andb] in *; [| done].
    destruct (present (Some typeString)) as [name |]; [| by injection Hfound].
    destruct (node_is final name); cbn [negb] in Hfound; [by injection Hfound | done]. }
  split; [done |]. split; [done |].
  destruct (pathHas branch type typeString) as [node |] eqn:Hhas.
  - exists node. split; [done |].
    apply pathHasFrom_first in Hhas as (_ & _ & _ & Hnode & _). exact Hnode.
  - exfalso. unfold destination in Hdest. apply last_Some in Hdest as [front Hpath].
    unfold pathHas in Hhas. rewrite Hpath in Hhas.
    clear Hpath Hfound. induction front as [| item front IH].
    + simpl app in Hhas. rewrite pathHasFrom_cons, Hpass in Hhas. done.
    + rewrite <- app_comm_cons, pathHasFrom_cons in Hhas.
      destruct (matches type (Some typeString) item); [done | by apply IH].
Qed.

(** ** The flow state handed to the search *)

Lemma whileLoop_returns_caller config seen recur fuel :
  forall w handed iter node branch index direction count found iter' w',
    whileLoop db config seen recur fuel w (Some handed) iter node branch index direction count
    = Some (found, iter', w') ->
    iter' = handed.
Proof.
  induction fuel as [| fuel IH];
    intros w handed iter node branch index direction count found iter' w';
    rewrite IteratorFacts.whileLoop_unfold; intros Hrun.
  - destruct ((count =? 1) || (0 <=? direction)); [done |].
    destruct (forkLoop _ _ _ _ _ _ _ _ _) as [[[result iter1] w1] |]; [| done].
    by inversion Hrun.
  - destruct ((count =? 1) || (0 <=? direction)).
    + destruct (shadowed node iter w) as [iter1 w1].
      destruct (basicNextFlowState db iter1 direction _) as [[iter2 arrival] w2].
      simpl in Hrun.
      destruct arrival as [arrival |]; [| by inversion Hrun].
      unfold arrived in Hrun.
      destruct (visitLimited seen arrival); [by inversion Hrun |].
      destruct (shouldStopAt arrival (stopAtTypes config)); [| by eapply IH].
      destruct (customStopHandler config) as [handler |]; [| by inversion Hrun].
      destruct (handler arrival seen) as [[| |] | | value]; try (by inversion Hrun).
      * destruct (recur w2 iter2 _ (index + 1) 0 arrival) as [[[rest iter3] w3] |]; [| done].
        by inversion Hrun.
      * by eapply IH.
    + destruct (forkLoop _ _ _ _ _ _ _ _ _) as [[[result iter1] w1] |]; [| done].
      by inversion Hrun.
Qed.

(** X14. [collectBranches] writes to the flow-state object it is handed.
    When the node it starts at needs a shadow and the walk begins (the
    node has one branch, or a direction is forced), the object leaves the
    call with its variables naming the clone made for the first step, and
    otherwise as it was; [refreshBranches] hands in a copy for this
    reason. *)
Theorem collectBranches_repoints_variables
    config seen fuel w iter given index direction id node found iter' w' :
  present (fs_id iter) = Some id ->
  getObject db id = Some node ->
  needsShadow node = true ->
  (numBranches node (read w (variables iter)) (fs_last iter)
     (default false (shadowing iter)) = 1
   \/ 0 <= direction) ->
  collectBranches db config seen fuel w iter given index direction None
  = Some (found, iter', w') ->
  iter' = set_variables (length (stores w)) iter
  /\ stores w !! length (stores w) = None.
Proof.
  intros Hid Hnode Hshadow Hwalk. destruct fuel as [| fuel]; [done |].
  rewrite IteratorFacts.collectBranches_unfold, Hid, Hnode.
  rewrite IteratorFacts.whileLoop_unfold.
  assert ((numBranches node (read w (variables iter)) (fs_last iter)
             (default false (shadowing iter)) =? 1) || (0 <=? direction) = true) as ->.
  { apply orb_true_iff. destruct Hwalk as [-> | Hdir]; [by left | right; by apply Z.leb_le]. }
  destruct fuel as [| fuel]; [done |].
  unfold shadowed. rewrite Hshadow. cbn [cloneVariableStore alloc count_clone stores].
  destruct (basicNextFlowState db _ direction _) as [[iter2 arrival] w2].
  cbn [default]. intros Hrun.
  split; [| apply lookup_ge_None; lia].
  destruct arrival as [arrival |]; [| by inversion Hrun].
  unfold arrived in Hrun.
  destruct (visitLimited seen arrival); [by inversion Hrun |].
  destruct (shouldStopAt arrival (stopAtTypes config));
    [| by eapply whileLoop_returns_caller].
  destruct (customStopHandler config) as [handler |]; [| by inversion Hrun].
  destruct (handler arrival seen) as [[| |] | | value]; try (by inversion Hrun).
  - destruct (collectBranches _ _ _ _ _ _ _ _ _ _) as [[[rest iter3] w3] |]; [| done].
    by inversion Hrun.
  - by eapply whileLoop_returns_caller.
Qed.

(** ** Exceptions *)

(** X15. On a branch that [collectBranches] returned, [destinationIs]
    does not throw, and it answers true for at least one of the type names
    of the stop set. *)
Theorem destinationIs_on_returned_branch
    config seen fuel w iter given index direction start found iter' w' branch :
  collectBranches db config seen fuel w iter given index direction start
  = Some (found, iter', w') ->
  branch ∈ found ->
  (forall type, exists answer, destinationIs branch type = Returns answer)
  /\ exists type, type ∈ stopAtTypes config /\ destinationIs branch type = Returns true.
Proof.
  intros Hrun Hin.
  apply collectBranches_ends_at_stops in Hrun.
  rewrite Forall_forall in Hrun.
  destruct (Hrun branch Hin) as (middle & dest & _ & Hdest & Hstop & _).
  unfold destinationIs. rewrite Hdest. split; [by eauto |].
  unfold shouldStopAt in Hstop. apply Nat.ltb_lt in Hstop.
  destruct (List.filter (fun t => node_is dest t) (stopAtTypes config)) as [| type rest] eqn:Hfilter;
    [simpl in Hstop; lia |].
  assert (In type (List.filter (fun t => node_is dest t) (stopAtTypes config))) as Htype
    by (rewrite Hfilter; by left).
  apply filter_In in Htype as [Hmember His].
  exists type. split; [by apply list_elem_of_In |]. by rewrite His.
Qed.

(** X16. A cached branch with an empty path makes the commit throw: the
    index is in range and the branch is found, but there is no destination
    to read the id of. ([collectBranches] never caches such a branch.) *)
Theorem advancedNextFlowState_empty_path_throws
    config fuel state branchIndex w id branch :
  0 <= branchIndex < Z.of_nat (length (branches state)) ->
  present (fs_id (flow state)) = Some id ->
  List.find (fun x => Iterator.index x =? branchIndex) (branches state) = Some branch ->
  path branch = [] ->
  exists error, advancedNextFlowState db config fuel state branchIndex w = Throws error.
Proof.
  intros Hrange Hid Hfind Hpath. unfold advancedNextFlowState.
  destruct (branchIndex <? 0) eqn:Hneg; [apply Z.ltb_lt in Hneg; lia |].
  destruct (Z.of_nat (length (branches state)) <=? branchIndex) eqn:Hlen;
    [apply Z.leb_le in Hlen; lia |].
  simpl. rewrite Hid, Hfind, Hpath. simpl. by eexists.
Qed.

End Extras.
End IteratorExtras.

(** * The further properties on the demo flow *)
Module DemoExtras.
Import Iterator Demo.

Lemma demo_execute_quiet (node : DemoNode) vars :
  needsShadow node = false -> execute node vars = vars.
Proof. by destruct node. Defined.

Lemma collectBranches_indices_are_positions_witness :
  exists found iter' w' branch,
    collectBranches demo_db plain nothing_seen 5 world (at_node "C") None 0 (-1) None
    = Some (found, iter', w')
    /\ found !! 1%nat = Some branch
    /\ index branch = 0 + Z.of_nat 1.
Proof.
  eexists _, _, _, _. split; [vm_compute; reflexivity |]. split; [reflexivity |].
  eapply (IteratorExtras.collectBranches_indices_are_positions demo_db plain nothing_seen
            5 world (at_node "C") None 0 (-1) None).
  - vm_compute. reflexivity.
  - discriminate.
  - reflexivity.
Defined.

Lemma collectBranches_returns_finished_branches_witness :
  exists found iter' w',
    collectBranches demo_db plain nothing_seen 5 world (at_node "C") None 0 (-1) None
    = Some (found, iter', w')
    /\ length found = 2%nat
    /\ Forall (fun branch =>
                 exists middle dest,
                   path branch = path (default (mkFlowBranch 0 []) None) ++ middle ++ [dest]
                   /\ destination branch = Some dest
                   /\ shouldStopAt dest (stopAtTypes plain) = true
                   /\ Forall (fun node => visitLimited nothing_seen node = false)
                        (middle ++ [dest]))
              found.
Proof.
  eexists _, _, _. split; [vm_compute; reflexivity |]. split; [reflexivity |].
  eapply (IteratorExtras.collectBranches_returns_finished_branches demo_db plain nothing_seen
            5 world (at_node "C") None 0 (-1) None).
  vm_compute. reflexivity.
Defined.

Lemma collectBranches_dead_traversal_witness :
  collectBranches demo_db plain nothing_seen 1 world (at_node "Z") None 0 (-1) None
  = Some ([], at_node "Z", world).
Proof.
  apply (IteratorExtras.collectBranches_dead_traversal demo_db plain nothing_seen 0 world
           (at_node "Z") None 0 (-1)).
  right. exists "Z". split; reflexivity.
Defined.

Lemma refreshed_branch_index_commits_witness :
  exists state' w' branch curr,
    refreshBranches demo_db plain 3 committed world = Some (state', w')
    /\ branches state' !! Z.to_nat 0 = Some branch
    /\ destination branch = Some curr
    /\ (advancedNextFlowState demo_db plain 5 state' 0 w' = OutOfFuel
        \/ exists after w2,
             advancedNextFlowState demo_db plain 5 state' 0 w'
             = Returns (after, Some curr, w2)).
Proof.
  eexists _, _.
  assert (refreshBranches demo_db plain 3 committed world = Some (_, _)) as Hready
    by (vm_compute; reflexivity).
  match type of Hready with
  | _ = Some (?refreshed, ?after) =>
      destruct (IteratorExtras.refreshed_branch_index_commits demo_db plain 3 committed world
                  refreshed after 0 5%nat after Hready)
        as (branch & curr & Hbranch & Hdest & Hcall)
  end.
  - vm_compute. split; [discriminate | reflexivity].
  - exists branch, curr. split; [exact Hready |]. split; [exact Hbranch |].
    split; [exact Hdest |]. exact Hcall.
Defined.

Lemma advancedNextFlowState_commit_position_witness :
  exists state w state' curr w',
    ready = Some (state, w)
    /\ advancedNextFlowState demo_db plain 5 state 0 w = Returns (state', Some curr, w')
    /\ exists branch id,
         List.find (fun x => index x =? 0) (branches state) = Some branch
         /\ present (fs_id (flow state)) = Some id
         /\ destination branch = Some curr
         /\ fs_id (flow state') = Some (node_Id curr)
         /\ shadowing (flow state') = None
         /\ ((path branch = [curr] /\ fs_last (flow state') = node_Id <$> getObject demo_db id)
             \/ exists front previous,
                  path branch = front ++ [previous; curr]
                  /\ fs_last (flow state') = Some (node_Id previous)).
Proof.
  eexists _, _, _, _, _. split; [vm_compute; reflexivity |].
  refine ((fun Hcall =>
             conj Hcall (IteratorExtras.advancedNextFlowState_commit_position demo_db plain 5 _ 0 _ _ _ _ Hcall)) _).
  vm_compute. reflexivity.
Defined.

Lemma advancedNextFlowState_counts_visits_witness :
  exists state w state' curr w',
    ready = Some (state, w)
    /\ advancedNextFlowState demo_db plain 5 state 0 w = Returns (state', Some curr, w')
    /\ exists branch,
         List.find (fun x => index x =? 0) (branches state) = Some branch
         /\ forall id,
              default 0 (counts (visits state') !! id)
              = default 0 (counts (visits state) !! id)
                + Z.of_nat (length (List.filter (fun node => String.eqb (node_Id node) id)
                                      (path branch)))
              /\ (Forall (fun node => node_Id node <> id) (path branch) ->
                  counts (visits state') !! id = counts (visits state) !! id
                  /\ indicies (visits state') !! id = indicies (visits state) !! id).
Proof.
  eexists _, _, _, _, _. split; [vm_compute; reflexivity |].
  refine ((fun Hcall =>
             conj Hcall (IteratorExtras.advancedNextFlowState_counts_visits demo_db plain 5 _ 0 _ _ _ _ Hcall)) _).
  vm_compute. reflexivity.
Defined.

Lemma advancedNextFlowState_clones_once_witness :
  exists state w state' curr w',
    ready = Some (state, w)
    /\ advancedNextFlowState demo_db plain 5 state 0 w = Returns (state', Some curr, w')
    /\ exists branch,
         List.find (fun x => index x =? 0) (branches state) = Some branch
         /\ variables (flow state')
            = (if existsb needsShadow (path branch)
               then length (stores w)
               else variables (flow state))
         /\ let walked := executePath demo_db (path branch) state (variables (flow state))
                            false (visits state) w in
            clones walked.2
            = (clones w + (if existsb needsShadow (path branch) then 1 else 0))%nat.
Proof.
  eexists _, _, _, _, _. split; [vm_compute; reflexivity |].
  refine ((fun Hcall =>
             conj Hcall (IteratorExtras.advancedNextFlowState_clones_once demo_db plain 5 _ 0 _ _ _ _ Hcall)) _).
  vm_compute. reflexivity.
Defined.

Lemma advancedNextFlowState_keeps_earlier_stores_witness :
  exists state w state' reached w',
    ready = Some (state, w)
    /\ advancedNextFlowState demo_db plain 5 state 0 w = Returns (state', reached, w')
    /\ keeps_stores w w'.
Proof.
  eexists _, _, _, _, _. split; [vm_compute; reflexivity |].
  refine ((fun Hcall =>
             conj Hcall
               (IteratorExtras.advancedNextFlowState_keeps_earlier_stores demo_db
                  DemoFacts.demo_db_resolves DemoFacts.demo_quiet demo_execute_quiet
                  plain 5 _ 0 _ _ _ _ Hcall)) _).
  vm_compute. reflexivity.
Defined.

Lemma advancedStartupFlowState_unresolved_witness :
  advancedStartupFlowState demo_db plain 1 "Z" world
  = Returns (NullAdvancedFlowState, None, (alloc (newVariableStore demo_db) world).2).
Proof.
  apply (IteratorExtras.advancedStartupFlowState_unresolved demo_db plain 0 "Z" world).
  reflexivity.
Defined.

Lemma advancedStartupFlowState_at_stop_witness :
  exists state reached w',
    advancedStartupFlowState demo_db plain 5 "C" world = Returns (state, reached, w')
    /\ reached = Some NC
    /\ flow state = {| fs_id := Some "C"; fs_last := None;
                       variables := length (stores world); shadowing := None |}
    /\ visits state = {| counts := ∅; indicies := ∅ |}
    /\ turn state = 0.
Proof.
  eexists _, _, _. split; [vm_compute; reflexivity |].
  eapply (IteratorExtras.advancedStartupFlowState_at_stop demo_db plain 5 "C" world NC).
  - reflexivity.
  - reflexivity.
  - vm_compute. reflexivity.
Defined.

Lemma pathHas_first_match_witness :
  exists before after,
    path {| index := 0; path := [NF; ND; NE] |} = before ++ ND :: after
    /\ matches (fun _ => true) (Some "DialogueFragment") ND = true
    /\ Forall (fun item => matches (fun _ => true) (Some "DialogueFragment") item = false)
         before.
Proof.
  apply (proj1 (IteratorExtras.pathHas_first_match
                  {| index := 0; path := [NF; ND; NE] |} (fun _ => true)
                  "DialogueFragment" ND)).
  reflexivity.
Defined.

Lemma destinationAs_found_by_pathHas_witness :
  destination {| index := 0; path := [NF; ND; NE] |} = Some NE
  /\ matches (fun _ => true) (Some "DialogueFragment") NE = true
  /\ exists node,
       pathHas {| index := 0; path := [NF; ND; NE] |} (fun _ => true) "DialogueFragment"
       = Some node
       /\ matches (fun _ => true) (Some "DialogueFragment") node = true.
Proof.
  apply (IteratorExtras.destinationAs_found_by_pathHas
           {| index := 0; path := [NF; ND; NE] |} (fun _ => true) "DialogueFragment" NE).
  reflexivity.
Defined.

Lemma collectBranches_repoints_variables_witness :
  exists found iter' w',
    collectBranches demo_db plain nothing_seen 3 world (at_node "A") None 0 (-1) None
    = Some (found, iter', w')
    /\ iter' = set_variables (length (stores world)) (at_node "A")
    /\ stores world !! length (stores world) = None.
Proof.
  eexists _, _, _. split; [vm_compute; reflexivity |].
  eapply (IteratorExtras.collectBranches_repoints_variables demo_db plain nothing_seen
            3 world (at_node "A") None 0 (-1) "A" NA).
  - reflexivity.
  - reflexivity.
  - reflexivity.
  - left. reflexivity.
  - vm_compute. reflexivity.
Defined.

Lemma destinationIs_on_returned_branch_witness :
  exists found iter' w',
    collectBranches demo_db plain nothing_seen 3 world (at_node "A") None 0 (-1) None
    = Some (found, iter', w')
    /\ (forall type, exists answer,
          destinationIs {| index := 0; path := [NB; NC] |} type = Returns answer)
    /\ exists type,
         type ∈ stopAtTypes plain
         /\ destinationIs {| index := 0; path := [NB; NC] |} type = Returns true.
Proof.
  eexists _, _, _. split; [vm_compute; reflexivity |].
  eapply (IteratorExtras.destinationIs_on_returned_branch demo_db plain nothing_seen
            3 world (at_node "A") None 0 (-1) None).
  - vm_compute. reflexivity.
  - apply list_elem_of_here.
Defined.

Lemma advancedNextFlowState_empty_path_throws_witness :
  exists error, advancedNextFlowState demo_db plain 5 broken 0 world = Throws error.
Proof.
  apply (IteratorExtras.advancedNextFlowState_empty_path_throws demo_db plain 5 broken 0
           world "A" {| index := 0; path := [] |}).
  - simpl. lia.
  - reflexivity.
  - reflexivity.
  - reflexivity.
Defined.

Lemma committed_generator_queued_in_order_witness :
  Script.wrapScriptFunction award None demo_db false [] dispatching
  = (Some (VNumber 7),
     Script.set_actionQueue
       (Some ([] ++ [mkAction "score/add" (Some (VNumber 5));
                     mkAction "log/append" (Some (VString "awarded"))]))
       dispatching).
Proof.
  apply (ScriptExtras.committed_generator_queued_in_order award None demo_db []
           (Script.GYield (mkAction "score/add" (Some (VNumber 5)))
              (Script.GYield (mkAction "log/append" (Some (VString "awarded")))
                 (Script.GReturn (Some (VNumber 7)))))
           dispatching []); reflexivity.
Defined.

Lemma dispatch_of_generated_actions_witness :
  Script.createScriptDispatchMiddleware
    (Some (fun action => mkAction "finalize" (payload action))) tt
    (fun _ G0 => Script.wrapScriptFunction award (Script.state G0) demo_db false [] G0)
    (mkAction "flow/advance" None) (Script.initial : DemoGlobals)
  = (Some (VNumber 7),
     [mkAction "score/add" (Some (VNumber 5));
      mkAction "log/append" (Some (VString "awarded"))]
     ++ [mkAction "finalize" None],
     Script.initial).
Proof.
  apply (ScriptExtras.dispatch_of_generated_actions award demo_db []
           (Script.GYield (mkAction "score/add" (Some (VNumber 5)))
              (Script.GYield (mkAction "log/append" (Some (VString "awarded")))
                 (Script.GReturn (Some (VNumber 7)))))
           (Some (fun action => mkAction "finalize" (payload action))) tt
           (mkAction "flow/advance" None) false (Script.initial : DemoGlobals));
    reflexivity.
Defined.

Lemma OnNodeExecution_calls_every_handler_witness :
  Script.invoked (Script.OnNodeExecution (fun _ => demo_db) ND committed all_handlers)
  = [("Visit_Limitation", 0%nat); ("Visit_Limitation", 1%nat);
     ("Unhandled", 0%nat); ("Logged", 0%nat)].
Proof.
  rewrite (ScriptExtras.OnNodeExecution_calls_every_handler (fun _ => demo_db) ND committed
             all_handlers
             [("Visit_Limitation", only_once); ("Unhandled", ∅); ("Logged", ∅)]).
  - vm_compute. reflexivity.
  - reflexivity.
  - repeat constructor; vm_compute; eexists; reflexivity.
Defined.

End DemoExtras.
